(** * FEATMY: client-side router and authentication session

    A shallow embedding of [src/js/router.js] (class [Router]) and
    [src/js/auth.js] (class [AuthManager]), and the properties of the
    navigation state machine and of the session lifecycle proved on it.

    Conventions.
    - A JS string is a [string]; [null] is [None].
    - A JS object literal that is iterated with [Object.entries] is an
      association list in insertion order (no key of the tables below is
      integer-like, so insertion order is the iteration order).
    - A JS object used as a dictionary is a [gmap string _].
    - An [async] method is cut at its [await]s on real I/O: the code between
      two such suspension points runs to completion and is one function. *)

From stdpp Require Import base strings list gmap.
From Stdlib Require Import Ascii String.

Local Open Scope string_scope.
Local Open Scope list_scope.

(** ** JavaScript string primitives used by the router *)

Module Js.

(** [s.split(sep)] for a one-character separator: never the empty list. *)
Fixpoint split (sep : ascii) (s : string) : list string :=
  match s with
  | EmptyString => [EmptyString]
  | String c rest =>
      if Ascii.eqb c sep then EmptyString :: split sep rest
      else match split sep rest with
           | [] => [String c EmptyString]
           | seg :: segs => String c seg :: segs
           end
  end.

(** [s.startsWith(c)] for a one-character prefix. *)
Definition startsWith (c : ascii) (s : string) : bool :=
  match s with
  | String d _ => Ascii.eqb d c
  | EmptyString => false
  end.

(** [s.includes(c)] for a one-character needle. *)
Fixpoint includes (c : ascii) (s : string) : bool :=
  match s with
  | EmptyString => false
  | String d rest => Ascii.eqb d c || includes c rest
  end.

(** [s.slice(1)]. *)
Definition slice1 (s : string) : string :=
  match s with
  | String _ rest => rest
  | EmptyString => EmptyString
  end.

(** Truthiness of a string value: only the empty string is falsy. *)
Definition truthy_str (s : string) : bool :=
  match s with EmptyString => false | _ => true end.

(** Property names every plain object inherits from [Object.prototype]:
    [obj[k]] is a (truthy) function or object for these even when the
    literal has no such key. *)
Definition object_prototype_keys : list string :=
  [ "constructor"; "toString"; "toLocaleString"; "valueOf";
    "hasOwnProperty"; "isPrototypeOf"; "propertyIsEnumerable"; "__proto__";
    "__defineGetter__"; "__defineSetter__"; "__lookupGetter__";
    "__lookupSetter__" ].

(** What [obj[k]] evaluates to on a string-valued object literal. *)
Inductive prop :=
  | Own (v : string)        (* an own entry of the literal *)
  | Inherited (k : string). (* a member of [Object.prototype] *)

Fixpoint own (table : list (string * string)) (k : string) : option string :=
  match table with
  | [] => None
  | (k', v) :: rest => if String.eqb k' k then Some v else own rest k
  end.

Definition get (table : list (string * string)) (k : string) : option prop :=
  match own table k with
  | Some v => Some (Own v)
  | None =>
      if existsb (String.eqb k) object_prototype_keys
      then Some (Inherited k) else None
  end.

(** Truthiness of [obj[k]]; [undefined] is falsy. *)
Definition truthy (p : option prop) : bool :=
  match p with
  | Some (Own v) => truthy_str v
  | Some (Inherited _) => true
  | None => false
  end.

(** [s.toLowerCase()] on the ASCII range. *)
Definition lowerChar (c : ascii) : ascii :=
  let n := nat_of_ascii c in
  if (65 <=? n)%nat && (n <=? 90)%nat then ascii_of_nat (n + 32) else c.

Fixpoint toLowerCase (s : string) : string :=
  match s with
  | EmptyString => EmptyString
  | String c rest => String (lowerChar c) (toLowerCase rest)
  end.

(** White space removed by [s.trim()] (ASCII range): tab, line feed,
    vertical tab, form feed, carriage return, space. *)
Definition isSpace (c : ascii) : bool :=
  let n := nat_of_ascii c in
  ((9 <=? n)%nat && (n <=? 13)%nat) || (n =? 32)%nat.

Fixpoint trimStart (s : string) : string :=
  match s with
  | String c rest => if isSpace c then trimStart rest else s
  | EmptyString => EmptyString
  end.

Fixpoint trimEnd (s : string) : string :=
  match s with
  | EmptyString => EmptyString
  | String c rest =>
      match trimEnd rest with
      | EmptyString => if isSpace c then EmptyString else String c EmptyString
      | rest' => String c rest'
      end
  end.

Definition trim (s : string) : string := trimEnd (trimStart s).

(** [s.replace(/[^a-z0-9]/g, '_')]. *)
Definition keepChar (c : ascii) : bool :=
  let n := nat_of_ascii c in
  ((97 <=? n)%nat && (n <=? 122)%nat) || ((48 <=? n)%nat && (n <=? 57)%nat).

Fixpoint replaceNonAlnum (s : string) : string :=
  match s with
  | EmptyString => EmptyString
  | String c rest =>
      String (if keepChar c then c else "_"%char) (replaceNonAlnum rest)
  end.

End Js.

(** ** External collaborators of the AuthManager *)

Module Ext.

(** A field value of a stored document, as far as [auth.js] writes and
    reads them. *)
Inductive value :=
  | VNull
  | VStr (s : string)
  | VArr (l : list string)
  | VTime (t : nat).

Global Instance value_eq_dec : EqDecision value.
Proof. solve_decision. Defined.

(** A document: a JS object, field name to value. *)
Abbreviation doc := (gmap string value).

(** The [user] object of a credential. *)
Record user := User { uid : string; email : string }.

Global Instance user_eq_dec : EqDecision user.
Proof. solve_decision. Defined.

(** A thrown JS error: [error.code] (absent on a plain [Error]) and
    [error.message]. *)
Record error := Error { code : option string; message : string }.

(** Modelled from the spec: the identity provider collaborator ([auth], the
    Firebase SDK object, is not part of the sources).  Accounts are keyed by
    e-mail; [uidGen]/[uidCount] stand for the identifiers the provider
    issues. *)
Record provider := Provider {
  accounts : gmap string (string * string);  (* email to (password, uid) *)
  signedIn : option user;
  uidGen   : nat -> string;
  uidCount : nat
}.

(** Modelled from the spec: the document store collaborator ([db]), with the
    two collections [auth.js] touches.  [idGen]/[idCount] stand for the
    automatic document identifiers of [collection.doc()], [clock] for the
    server time. *)
Record firestore := Firestore {
  users              : gmap string doc;
  pendingActivations : gmap string doc;
  idGen   : nat -> string;
  idCount : nat;
  clock   : nat
}.

(** The in-memory fields of the [AuthManager] instance that the session
    operations read and write. *)
Record manager := Manager {
  currentUser     : option user;
  currentUserType : option string;
  isInitialized   : bool
}.

Record state := State {
  auth : provider;
  db   : firestore;
  mgr  : manager
}.

(** *** A state-and-exception monad for the [async] methods

    Effects of a computation that throws are kept, as in JS. *)
Inductive outcome (A : Type) :=
  | Ok (a : A)
  | Throw (e : error).
Arguments Ok {A} a.
Arguments Throw {A} e.

Definition M (A : Type) : Type := state -> outcome A * state.

Definition ret {A} (a : A) : M A := fun s => (Ok a, s).

Definition bind {A B} (m : M A) (k : A -> M B) : M B :=
  fun s => match m s with
           | (Ok a, s') => k a s'
           | (Throw e, s') => (Throw e, s')
           end.

Definition throw {A} (e : error) : M A := fun s => (Throw e, s).

(** [throw new Error(msg)]. *)
Definition throwError {A} (msg : string) : M A := throw (Error None msg).

(** [try { m } catch (e) { h e }]. *)
Definition try_catch {A} (m : M A) (h : error -> M A) : M A :=
  fun s => match m s with
           | (Ok a, s') => (Ok a, s')
           | (Throw e, s') => h e s'
           end.

Definition get_state : M state := fun s => (Ok s, s).
Definition modify (f : state -> state) : M unit := fun s => (Ok tt, f s).

Global Instance M_ret : MRet M := @ret.
Global Instance M_bind : MBind M := fun A B k m => bind m k.

Definition set_auth (p : provider) (s : state) : state :=
  State p (db s) (mgr s).
Definition set_db (d : firestore) (s : state) : state :=
  State (auth s) d (mgr s).
Definition set_mgr (m : manager) (s : state) : state :=
  State (auth s) (db s) m.

(** *** Identity provider operations *)

(** Modelled from the spec: create-account of the identity provider,
    [auth.createUserWithEmailAndPassword(email, password)]; it signs the new
    identity in. *)
Definition createUserWithEmailAndPassword (em pw : string) : M user :=
  s ← get_state;
  let p := auth s in
  match accounts p !! em with
  | Some _ =>
      throw (Error (Some "auth/email-already-in-use") "email-already-in-use")
  | None =>
      if (String.length pw <? 6)%nat
      then throw (Error (Some "auth/weak-password") "weak-password")
      else
        let u := User (uidGen p (uidCount p)) em in
        modify (set_auth (Provider (<[em := (pw, uid u)]> (accounts p))
                                   (Some u) (uidGen p) (S (uidCount p))));;
        ret u
  end.

(** Modelled from the spec: sign-in of the identity provider,
    [auth.signInWithEmailAndPassword(email, password)]. *)
Definition signInWithEmailAndPassword (em pw : string) : M user :=
  s ← get_state;
  let p := auth s in
  match accounts p !! em with
  | None => throw (Error (Some "auth/user-not-found") "user-not-found")
  | Some (pw', id) =>
      if negb (String.eqb pw pw')
      then throw (Error (Some "auth/wrong-password") "wrong-password")
      else
        let u := User id em in
        modify (set_auth (Provider (accounts p) (Some u)
                                   (uidGen p) (uidCount p)));;
        ret u
  end.

(** Modelled from the spec: sign-out of the identity provider,
    [auth.signOut()].  The call may throw (the spec says so for [logout]):
    [answer] is how the provider answers this call, [None] when it
    completes and the error it throws otherwise, the identity then staying
    signed in. *)
Definition signOut (answer : option error) : M unit :=
  match answer with
  | Some e => throw e
  | None =>
      modify (fun s => set_auth (Provider (accounts (auth s)) None
                                          (uidGen (auth s)) (uidCount (auth s))) s)
  end.

(** *** Document store operations *)

Inductive collection := Users | PendingActivations.

Definition coll (c : collection) (d : firestore) : gmap string doc :=
  match c with Users => users d | PendingActivations => pendingActivations d end.

Definition set_coll (c : collection) (m : gmap string doc) (d : firestore)
    : firestore :=
  match c with
  | Users => Firestore m (pendingActivations d) (idGen d) (idCount d) (clock d)
  | PendingActivations => Firestore (users d) m (idGen d) (idCount d) (clock d)
  end.

(** Modelled from the spec: get-by-key of the document store,
    [db.collection(c).doc(k).get()]; [None] is a snapshot with
    [exists == false]. *)
Definition doc_get (c : collection) (k : string) : M (option doc) :=
  s ← get_state; ret (coll c (db s) !! k).

(** Modelled from the spec: set of the document store,
    [db.collection(c).doc(k).set(d)]. *)
Definition doc_set (c : collection) (k : string) (d : doc) : M unit :=
  modify (fun s => set_db (set_coll c (<[k := d]> (coll c (db s))) (db s)) s).

(** Modelled from the spec: update of the document store,
    [db.collection(c).doc(k).update(d)]; it fails when the document is
    absent and otherwise overwrites the given fields. *)
Definition doc_update (c : collection) (k : string) (f : doc -> doc) : M unit :=
  s ← get_state;
  match coll c (db s) !! k with
  | None => throw (Error (Some "not-found") "No document to update")
  | Some d =>
      modify (fun s => set_db (set_coll c (<[k := f d]> (coll c (db s))) (db s)) s)
  end.

(** Modelled from the spec: delete of the document store,
    [db.collection(c).doc(k).delete()]. *)
Definition doc_delete (c : collection) (k : string) : M unit :=
  modify (fun s => set_db (set_coll c (delete k (coll c (db s))) (db s)) s).

(** [db.collection(c).doc()]: a reference with a new automatic id. *)
Definition doc_new : M string :=
  s ← get_state;
  let d := db s in
  modify (set_db (Firestore (users d) (pendingActivations d)
                            (idGen d) (S (idCount d)) (clock d)));;
  ret (idGen d (idCount d)).

(** [firebase.firestore.FieldValue.serverTimestamp()], resolved by the
    store when the write is applied. *)
Definition serverTimestamp : M value :=
  s ← get_state;
  let d := db s in
  modify (set_db (Firestore (users d) (pendingActivations d)
                            (idGen d) (idCount d) (S (clock d))));;
  ret (VTime (clock d)).

(** Modelled from the spec: query by field equality,
    [collection.where(field, '==', v).get()], reduced to its [empty] flag. *)
Definition query_empty (c : collection) (field : string) (v : value) : M bool :=
  s ← get_state;
  ret (bool_decide (map_Forall (fun _ (d : doc) => d !! field <> Some v)
                               (coll c (db s)))).

(** Modelled from the spec: the atomic array-append and array-remove
    updates, [FieldValue.arrayUnion(x)] and [FieldValue.arrayRemove(x)],
    applied to the current value of a field. *)
Definition arrayUnion (x : string) (v : option value) : value :=
  match v with
  | Some (VArr l) => VArr (if bool_decide (x ∈ l) then l else l ++ [x])
  | _ => VArr [x]
  end.

Definition arrayRemove (x : string) (v : option value) : value :=
  match v with
  | Some (VArr l) => VArr (filter (fun y => y <> x) l)
  | _ => VArr []
  end.

End Ext.

(** ** AuthManager ([src/js/auth.js]) *)

Module AuthManager.
Import Ext.

(** The result object [{ success, user, userType }] or
    [{ success: false, error }] of the session operations. *)
Inductive session_result :=
  | Success (user : Ext.user) (userType : option string)
  | Failure (error : string).

(** The result object of [createStudentAccount]. *)
Inductive create_result :=
  | Created (studentDocId : string)
  | CreateFailed (error : string).

(** The result object of [checkPendingStudent]:
    [{ exists: true, studentDocId, name, personalId }],
    [{ exists: false, alreadyActive: true }],
    [{ exists: false, noIndex: true }] or [{ exists: false, error }]. *)
Inductive pending_result :=
  | Exists (studentDocId : string) (name personalId : option value)
  | AlreadyActive
  | NoIndex
  | CheckFailed (error : string).

(** A field read as a string, as the comparisons with string literals and
    the role stored in the session use it. *)
Definition as_str (v : option value) : option string :=
  match v with Some (VStr s) => Some s | _ => None end.

(** [v === lit] for a string literal. *)
Definition is_str (v : option value) (lit : string) : bool :=
  match v with Some (VStr s) => String.eqb s lit | _ => false end.

(** [_translateError]: [map[error.code] || error.message || 'Erro desconhecido']
    (the provider's codes are never names of [Object.prototype] members). *)
Definition errorMap : list (string * string) :=
  [ ("auth/email-already-in-use", "Este e-mail já está cadastrado");
    ("auth/invalid-email",        "E-mail inválido");
    ("auth/weak-password",        "Senha muito fraca");
    ("auth/user-not-found",       "Usuário não encontrado");
    ("auth/wrong-password",       "Senha incorreta");
    ("auth/invalid-credential",   "E-mail ou senha incorretos");
    ("auth/too-many-requests",    "Muitas tentativas. Tente novamente mais tarde");
    ("auth/user-disabled",        "Usuário desabilitado") ].

Definition _translateError (e : error) : string :=
  match code e ≫= Js.own errorMap with
  | Some msg => msg
  | None => if Js.truthy_str (message e) then message e else "Erro desconhecido"
  end.

(** The sanitized index key of an e-mail:
    [email.toLowerCase().trim()] then [.replace(/[^a-z0-9]/g, '_')]. *)
Definition normalizeEmail (email : string) : string :=
  Js.trim (Js.toLowerCase email).

Definition emailKey (normalizedEmail : string) : string :=
  Js.replaceNonAlnum normalizedEmail.

Definition setSession (u : option user) (t : option string) : M unit :=
  modify (fun s => set_mgr (Manager u t (isInitialized (mgr s))) s).

(** The provisional profile record written by [createStudentAccount]. *)
Definition provisionalDoc (studentRef name normalizedEmail personalUid : string)
    (createdAt : value) : doc :=
  list_to_map
    [ ("uid", VStr studentRef);
      ("name", VStr name);
      ("email", VStr normalizedEmail);
      ("userType", VStr "student");
      ("status", VStr "pending");
      ("personalId", VStr personalUid);
      ("authUid", VNull);
      ("assignedWorkouts", VArr []);
      ("createdAt", createdAt);
      ("createdBy", VStr personalUid) ].

(** The pending-activation index entry written by [createStudentAccount]. *)
Definition indexEntry (studentRef : string) (createdAt : value) : doc :=
  list_to_map
    [ ("studentDocId", VStr studentRef);
      ("status", VStr "pending");
      ("createdAt", createdAt) ].

(** The final profile record written by [activateStudentAccount]:
    [{ ...studentData, uid, authUid, status: 'active', activatedAt }]. *)
Definition finalDoc (studentData : doc) (uid : string) (activatedAt : value)
    : doc :=
  <["activatedAt" := activatedAt]>
    (<["status" := VStr "active"]>
       (<["authUid" := VStr uid]>
          (<["uid" := VStr uid]> studentData))).

(** [createStudentAccount(name, email)]. *)
Definition createStudentAccount (name email : string) : M create_result :=
  try_catch
    (s ← get_state;
     match currentUser (mgr s) with
     | None => throwError "Não autenticado"
     | Some personalUser =>
       if negb (bool_decide (currentUserType (mgr s) = Some "personal"))
       then throwError "Apenas personals podem criar alunos"
       else if negb (Js.truthy_str name) || negb (Js.truthy_str email)
       then throwError "Nome e e-mail são obrigatórios"
       else
         let normalizedEmail := normalizeEmail email in
         empty ← query_empty Users "email" (VStr normalizedEmail);
         if negb empty then throwError "Este e-mail já está cadastrado"
         else
           studentRef ← doc_new;
           createdAt ← serverTimestamp;
           doc_set Users studentRef
             (provisionalDoc studentRef (Js.trim name) normalizedEmail
                             (uid personalUser) createdAt);;
           doc_update Users (uid personalUser)
             (fun d => <["students" := arrayUnion studentRef (d !! "students")]> d);;
           indexAt ← serverTimestamp;
           doc_set PendingActivations (emailKey normalizedEmail)
             (indexEntry studentRef indexAt);;
           ret (Created studentRef)
     end)
    (fun error => ret (CreateFailed (message error))).

(** [checkPendingStudent(email)]. *)
Definition checkPendingStudent (email : string) : M pending_result :=
  try_catch
    (let normalizedEmail := normalizeEmail email in
     indexDoc ← doc_get PendingActivations (emailKey normalizedEmail);
     match indexDoc with
     | None => ret NoIndex
     | Some indexData =>
       if negb (is_str (indexData !! "status") "pending")
       then ret AlreadyActive
       else
         match indexData !! "studentDocId" with
         | Some (VStr studentDocId) =>
           studentDoc ← doc_get Users studentDocId;
           match studentDoc with
           | None => ret AlreadyActive
           | Some studentData =>
             if negb (is_str (studentData !! "status") "pending")
             then ret AlreadyActive
             else ret (Exists studentDocId (studentData !! "name")
                                           (studentData !! "personalId"))
           end
         | _ =>
           (* [doc(x)] rejects an argument that is not a non-empty string *)
           throwError "Invalid document reference"
         end
     end)
    (fun error => ret (CheckFailed (message error))).

(** Step 6 of [activateStudentAccount]: when the provisional record names
    its trainer, replace the provisional id by the identity's id in the
    trainer's student list, best effort. *)
Definition updatePersonalList (studentData : doc) (studentDocId uid : string)
    : M unit :=
  match studentData !! "personalId" with
  | Some (VStr personalId) =>
    if Js.truthy_str personalId then
      try_catch
        (doc_update Users personalId
           (fun d => <["students" :=
                         arrayRemove studentDocId (d !! "students")]> d);;
         doc_update Users personalId
           (fun d => <["students" := arrayUnion uid (d !! "students")]> d))
        (fun _ => ret tt)
    else ret tt
  | _ => ret tt
  end.

(** [activateStudentAccount(email, password, studentDocId)]. *)
Definition activateStudentAccount (email password studentDocId : string)
    : M session_result :=
  try_catch
    (if (String.length password <? 6)%nat
     then throwError "A senha deve ter pelo menos 6 caracteres"
     else
       let normalizedEmail := normalizeEmail email in
       (* 1. read the provisional document *)
       provisoryDoc ← doc_get Users studentDocId;
       match provisoryDoc with
       | None =>
         throwError "Dados do aluno não encontrados. Entre em contato com seu personal trainer."
       | Some studentData =>
         (* 2. create the identity, or sign in when it already exists *)
         user ← try_catch
                  (createUserWithEmailAndPassword normalizedEmail password)
                  (fun authError =>
                     if bool_decide (code authError = Some "auth/email-already-in-use")
                     then signInWithEmailAndPassword normalizedEmail password
                     else throw authError);
         (* 3. migration already done? *)
         existingDoc ← doc_get Users (uid user);
         if match existingDoc with
            | Some d => is_str (d !! "status") "active"
            | None => false
            end
         then
           setSession (Some user) (Some "student");;
           ret (Success user (Some "student"))
         else
           (* 4. final document users/{uid} *)
           activatedAt ← serverTimestamp;
           doc_set Users (uid user) (finalDoc studentData (uid user) activatedAt);;
           (* 5. delete the provisional document *)
           try_catch (doc_delete Users studentDocId) (fun _ => ret tt);;
           (* 6. the trainer's student list *)
           updatePersonalList studentData studentDocId (uid user);;
           (* 7. delete the pending-activation index entry *)
           try_catch
             (doc_delete PendingActivations (emailKey normalizedEmail))
             (fun _ => ret tt);;
           setSession (Some user) (Some "student");;
           ret (Success user (Some "student"))
       end)
    (fun error => ret (Failure (_translateError error))).

(** [login(email, password)], run without anything else in between.
    [signOutAnswer] is how the provider answers the sign-out call, should
    the method make it. *)
Definition login (signOutAnswer : option error) (email password : string)
    : M session_result :=
  try_catch
    (user ← signInWithEmailAndPassword email password;
     doc ← doc_get Users (uid user);
     match doc with
     | None => throwError "Dados do usuário não encontrados"
     | Some data =>
       if is_str (data !! "userType") "student"
          && is_str (data !! "status") "inactive"
       then
         signOut signOutAnswer;;
         ret (Failure "Sua conta foi desativada. Entre em contato com seu personal trainer.")
       else
         setSession (Some user) (as_str (data !! "userType"));;
         ret (Success user (as_str (data !! "userType")))
     end)
    (fun error => ret (Failure (_translateError error))).

(** The result object [{ success: true }] or [{ success: false, error }] of
    the student-management operations. *)
Inductive op_result :=
  | Done
  | Failed (error : string).

(** The profile record written by [signupPersonal]. *)
Definition personalDoc (uid name email : string) (createdAt : value) : doc :=
  list_to_map
    [ ("uid", VStr uid);
      ("name", VStr name);
      ("email", VStr email);
      ("userType", VStr "personal");
      ("status", VStr "active");
      ("students", VArr []);
      ("createdAt", createdAt) ].

(** [signupPersonal(email, password, name)], run without anything else in
    between. *)
Definition signupPersonal (email password name : string) : M session_result :=
  try_catch
    (if negb (Js.truthy_str email) || negb (Js.truthy_str password)
        || negb (Js.truthy_str name)
     then throwError "Todos os campos são obrigatórios"
     else if (String.length password <? 6)%nat
     then throwError "A senha deve ter pelo menos 6 caracteres"
     else
       user ← createUserWithEmailAndPassword email password;
       createdAt ← serverTimestamp;
       doc_set Users (uid user) (personalDoc (uid user) name email createdAt);;
       setSession (Some user) (Some "personal");;
       ret (Success user (Some "personal")))
    (fun error => ret (Failure (_translateError error))).

(** [deactivateStudent(studentDocId)]. *)
Definition deactivateStudent (studentDocId : string) : M op_result :=
  try_catch
    (doc_update Users studentDocId (fun d => <["status" := VStr "inactive"]> d);;
     ret Done)
    (fun error => ret (Failed (message error))).

(** [reactivateStudent(studentDocId)]. *)
Definition reactivateStudent (studentDocId : string) : M op_result :=
  try_catch
    (doc_update Users studentDocId (fun d => <["status" := VStr "active"]> d);;
     ret Done)
    (fun error => ret (Failed (message error))).

(** [deleteStudent(studentDocId)].  The inner [try] cleans the
    pending-activation index, best effort: reading [.replace] of an [email]
    field that is not a string throws a [TypeError], which it swallows. *)
Definition deleteStudent (studentDocId : string) : M op_result :=
  try_catch
    (s ← get_state;
     match currentUser (mgr s) with
     | None => throwError "Não autenticado"
     | Some personalUser =>
       try_catch
         (studentDoc ← doc_get Users studentDocId;
          match studentDoc with
          | None => ret tt
          | Some data =>
            match data !! "email" with
            | Some (VStr email) =>
              doc_delete PendingActivations (emailKey email)
            | _ => throwError "email.replace is not a function"
            end
          end)
         (fun _ => ret tt);;
       doc_update Users (uid personalUser)
         (fun d => <["students" := arrayRemove studentDocId (d !! "students")]> d);;
       doc_delete Users studentDocId;;
       ret Done
     end)
    (fun error => ret (Failed (message error))).

(** Getters. *)
Definition getCurrentUser (m : manager) : option user := currentUser m.
Definition getCurrentUserType (m : manager) : option string := currentUserType m.
Definition isAuthenticated (m : manager) : bool :=
  match currentUser m with Some _ => true | None => false end.

End AuthManager.

(** ** The identity-change listener next to a running [login]

    [initialize] subscribes a callback to the identity provider
    ([auth.onAuthStateChanged]); the provider notifies it of every sign-in
    and sign-out, also of those [login] itself makes.  The callback and
    [login] are [async]: each stops at its [await]s, and between two
    [await]s of one the other may run.  The machine below keeps where the
    running [login] is, the notifications the provider has not delivered
    yet, and the callbacks stopped in their profile fetch; one [action] is
    one turn of the event loop. *)

Module Listener.
Import Ext AuthManager.

(** Where the running [login(email, password)] is. *)
Inductive login_pc :=
  | Calling (email password : string)  (* in [await auth.signIn...(...)] *)
  | Fetching (user : Ext.user)         (* in [await db...doc(user.uid).get()] *)
  | SigningOut (user : Ext.user)       (* in [await auth.signOut()] *)
  | Returned (r : session_result).

Record agent := Agent {
  base          : state;
  signOutAnswer : option error;   (* how the provider answers [signOut] *)
  pc            : login_pc;
  notifications : list (option Ext.user);  (* not delivered yet, oldest first *)
  suspended     : list Ext.user;  (* callbacks in [await ...get()] *)
  resolved      : bool;           (* the [resolved] flag of [initialize] *)
  published     : list (option Ext.user * option string)
                                  (* the [notifyListeners] calls so far *)
}.

Definition set_base (s : state) (a : agent) : agent :=
  Agent s (signOutAnswer a) (pc a) (notifications a) (suspended a)
        (resolved a) (published a).
Definition set_pc (l : login_pc) (a : agent) : agent :=
  Agent (base a) (signOutAnswer a) l (notifications a) (suspended a)
        (resolved a) (published a).
Definition set_notifications (n : list (option Ext.user)) (a : agent) : agent :=
  Agent (base a) (signOutAnswer a) (pc a) n (suspended a)
        (resolved a) (published a).
Definition set_suspended (l : list Ext.user) (a : agent) : agent :=
  Agent (base a) (signOutAnswer a) (pc a) (notifications a) l
        (resolved a) (published a).

(** The provider queues a notification for the subscribed callback. *)
Definition notify (n : option Ext.user) (a : agent) : agent :=
  set_notifications (notifications a ++ [n]) a.

(** Assignments to [this.currentUser] and [this.currentUserType]. *)
Definition set_currentUser (u : option Ext.user) (a : agent) : agent :=
  set_base (set_mgr (Manager u (currentUserType (mgr (base a)))
                             (isInitialized (mgr (base a)))) (base a)) a.
Definition set_currentUserType (t : option string) (a : agent) : agent :=
  set_base (set_mgr (Manager (currentUser (mgr (base a))) t
                             (isInitialized (mgr (base a)))) (base a)) a.

(** The end of the callback: [this.notifyListeners()], then
    [if (!resolved) { resolved = true; this.isInitialized = true; resolve() }]. *)
Definition callbackEnd (a : agent) : agent :=
  let m := mgr (base a) in
  Agent (if resolved a then base a
         else set_mgr (Manager (currentUser m) (currentUserType m) true) (base a))
        (signOutAnswer a) (pc a) (notifications a) (suspended a) true
        (published a ++ [(currentUser m, currentUserType m)]).

(** The oldest notification is delivered: the callback runs up to its
    [await], or to its end when the identity is absent. *)
Definition deliver (a : agent) : agent :=
  match notifications a with
  | [] => a
  | Some user :: rest =>
      set_suspended (suspended a ++ [user])
        (set_currentUser (Some user) (set_notifications rest a))
  | None :: rest =>
      callbackEnd
        (set_currentUserType None
           (set_currentUser None (set_notifications rest a)))
  end.

(** The profile fetch of the [i]-th stopped callback is answered:
    [this.currentUserType = doc.exists ? doc.data().userType : null], and
    the callback runs to its end. *)
Definition resumeCallback (i : nat) (a : agent) : agent :=
  match suspended a !! i with
  | None => a
  | Some user =>
      callbackEnd
        (set_currentUserType
           (match users (db (base a)) !! uid user with
            | Some data => as_str (data !! "userType")
            | None => None
            end)
           (set_suspended (delete i (suspended a)) a))
  end.

(** The pending [await] of [login] is answered and [login] runs to its next
    [await] or to its [return]. *)
Definition loginStep (a : agent) : agent :=
  match pc a with
  | Calling email password =>
      match signInWithEmailAndPassword email password (base a) with
      | (Ok user, s) => notify (Some user) (set_pc (Fetching user) (set_base s a))
      | (Throw e, s) =>
          set_pc (Returned (Failure (_translateError e))) (set_base s a)
      end
  | Fetching user =>
      match users (db (base a)) !! uid user with
      | None =>
          set_pc (Returned (Failure (_translateError
                     (Error None "Dados do usuário não encontrados")))) a
      | Some data =>
          if is_str (data !! "userType") "student"
             && is_str (data !! "status") "inactive"
          then set_pc (SigningOut user) a
          else
            set_pc (Returned (Success user (as_str (data !! "userType"))))
              (set_currentUserType (as_str (data !! "userType"))
                 (set_currentUser (Some user) a))
      end
  | SigningOut user =>
      match signOut (signOutAnswer a) (base a) with
      | (Ok _, s) =>
          notify None
            (set_pc (Returned (Failure "Sua conta foi desativada. Entre em contato com seu personal trainer."))
               (set_base s a))
      | (Throw e, s) =>
          set_pc (Returned (Failure (_translateError e))) (set_base s a)
      end
  | Returned _ => a
  end.

(** One turn of the event loop. *)
Inductive action :=
  | LoginStep
  | Deliver
  | ResumeCallback (i : nat).

Definition step (x : action) (a : agent) : agent :=
  match x with
  | LoginStep => loginStep a
  | Deliver => deliver a
  | ResumeCallback i => resumeCallback i a
  end.

Definition run (schedule : list action) (a : agent) : agent :=
  foldl (fun a x => step x a) a schedule.



(** The failure [login] returns for a deactivated student. *)
Definition accountDisabled : session_result :=
  Failure "Sua conta foi desativada. Entre em contato com seu personal trainer.".






End Listener.

(** ** A trainer registers a student, who then activates the account *)

Module Scenario.
Import Ext AuthManager.

(** Identifiers as the collaborators could issue them: a prefix and a tally. *)
Fixpoint tally (n : nat) : string :=
  match n with O => EmptyString | S k => String "i" (tally k) end.

Definition trainer : user := User "T1" "trainer@x.com".

(** The trainer is signed in; no student yet. *)
Definition start : state :=
  State
    (Provider {[ "trainer@x.com" := ("trainerpw", "T1") ]} (Some trainer)
              (fun n => "U" +:+ tally n) 0)
    (Firestore
       {[ "T1" := {[ "uid" := VStr "T1"; "userType" := VStr "personal";
                     "status" := VStr "active"; "students" := VArr [] ]} ]}
       ∅ (fun n => "D" +:+ tally n) 0 0)
    (Manager (Some trainer) (Some "personal") true).

Definition afterCreate : state :=
  (createStudentAccount "Ana" " Ana@X.com " start).2.

Definition afterActivation : state :=
  (activateStudentAccount "ana@x.com" "secret1" "D" afterCreate).2.




End Scenario.

(** ** Router: route tables and route resolution *)

Module Router.

(** [this.routes] of the constructor. *)
Definition routes : list (string * string) :=
  [ ("/", "pages/login.html");
    ("/login", "pages/login.html");
    ("/signup", "pages/signup.html");
    ("/primeiro-acesso", "pages/primeiro-acesso.html");
    ("/personal/dashboard", "pages/personal/dashboard.html");
    ("/personal/exercises", "pages/personal/exercises.html");
    ("/personal/create-workout", "pages/personal/create-workout.html");
    ("/personal/student/:id", "pages/personal/student-details.html");
    ("/personal/feedbacks", "pages/personal/feedbacks.html");
    ("/student/dashboard", "pages/student/dashboard.html");
    ("/student/view-workout", "pages/student/view-workout.html");
    ("/personal/volume/:id", "pages/personal/volume-analysis.html") ].

(** [this.protectedRoutes] of the constructor. *)
Definition protectedRoutes : list (string * string) :=
  [ ("/personal/dashboard", "personal");
    ("/personal/exercises", "personal");
    ("/personal/create-workout", "personal");
    ("/personal/student/:id", "personal");
    ("/personal/feedbacks", "personal");
    ("/student/dashboard", "student");
    ("/personal/volume/:id", "personal");
    ("/student/view-workout", "student") ].

(** [this.publicRoutes] of the constructor. *)
Definition publicRoutes : list string :=
  [ "/login"; "/signup"; "/"; "/primeiro-acesso" ].

(** The result object [{ route, params }] of [matchRoute]. *)
Record match_result := MatchResult {
  route  : string;
  params : gmap string string
}.

(** The inner [for] loop of [matchRoute] over the segments of one pattern,
    started with the [params] collected so far; [None] is [match = false].
    The caller has checked that both arrays have the same length, so the
    case of an exhausted path array is never reached. *)
Fixpoint matchParts (routeParts pathParts : list string)
    (params : gmap string string) : option (gmap string string) :=
  match routeParts, pathParts with
  | [], _ => Some params
  | r :: rs, p :: ps =>
      if Js.startsWith ":" r then matchParts rs ps (<[Js.slice1 r := p]> params)
      else if negb (String.eqb r p) then None
      else matchParts rs ps params
  | _ :: _, [] => None
  end.

(** The outer [for ... of Object.entries(this.routes)] loop of
    [matchRoute]. *)
Fixpoint matchPatterns (entries : list (string * string)) (path : string)
    : option match_result :=
  match entries with
  | [] => None
  | (route, _) :: rest =>
      if negb (Js.includes ":" route) then matchPatterns rest path
      else
        let routeParts := Js.split "/" route in
        let pathParts := Js.split "/" path in
        if negb (List.length routeParts =? List.length pathParts)%nat
        then matchPatterns rest path
        else match matchParts routeParts pathParts ∅ with
             | Some params => Some (MatchResult route params)
             | None => matchPatterns rest path
             end
  end.

(** [matchRoute(path)] over a route table. *)
Definition matchRouteIn (table : list (string * string)) (path : string)
    : option match_result :=
  if Js.truthy (Js.get table path) then Some (MatchResult path ∅)
  else matchPatterns table path.

Definition matchRoute (path : string) : option match_result :=
  matchRouteIn routes path.

(** The inner loop of [getRequiredType] over the segments of one pattern:
    [true] is [match] still being [true] at the end. *)
Fixpoint matchTypeParts (routeParts pathParts : list string) : bool :=
  match routeParts, pathParts with
  | [], _ => true
  | r :: rs, p :: ps =>
      if negb (Js.startsWith ":" r) && negb (String.eqb r p) then false
      else matchTypeParts rs ps
  | _ :: _, [] => false
  end.

(** The [for ... of Object.entries(this.protectedRoutes)] loop of
    [getRequiredType]. *)
Fixpoint typeOfPatterns (entries : list (string * string)) (path : string)
    : option string :=
  match entries with
  | [] => None
  | (route, type) :: rest =>
      if negb (Js.includes ":" route) then typeOfPatterns rest path
      else
        let routeParts := Js.split "/" route in
        let pathParts := Js.split "/" path in
        if negb (List.length routeParts =? List.length pathParts)%nat
        then typeOfPatterns rest path
        else if matchTypeParts routeParts pathParts then Some type
        else typeOfPatterns rest path
  end.

(** [getRequiredType(path)] over a table; [None] is [null]. *)
Definition getRequiredTypeIn (table : list (string * string)) (path : string)
    : option Js.prop :=
  if Js.truthy (Js.get table path) then Js.get table path
  else Js.Own <$> typeOfPatterns table path.

Definition getRequiredType (path : string) : option Js.prop :=
  getRequiredTypeIn protectedRoutes path.

(** *** Navigation state *)

(** How the page load of [loadPage] ends once the fetch has been answered. *)
Inductive load_outcome :=
  | Rendered      (* html injected, scripts run, hash synchronised *)
  | NoContainer   (* [#app] missing: return after the fetch *)
  | LoadError.    (* fetch failed or [!response.ok]: error panel *)

(** Observable effects, in program order. *)
Inductive event :=
  | EvDropped (path : string)        (* navigate: "Já navegando para" *)
  | EvNavigate (path : string)       (* [_navigate(path)] entered *)
  | EvHash (h : string)              (* [window.location.hash = h] *)
  | EvLoadPage (path : string)       (* [loadPage(path)] entered *)
  | EvFetch (pagePath : option Js.prop)  (* [fetch(pagePath + cacheBuster)] *)
  | EvLoaded (path : string) (o : load_outcome)
  | EvDone (path : string).          (* [_navigate] left, busy flag cleared *)

(** Where the one running [navigate] loop is suspended. *)
Inductive suspension :=
  | AwaitAuth (path : string)   (* in [await this.waitForAuth()] *)
  | AwaitLoad (path : string).  (* in [await this.loadPage(path)] *)

Inductive status :=
  | Done
  | Suspended (s : suspension).

(** The router fields, the session it reads through [authManager], the
    window, the effects so far, the suspended loop and the page loads that
    [loadPage] started without awaiting them. *)
Record world := World {
  isReady         : bool;
  authReady       : bool;
  currentPath     : option string;
  navigationQueue : list string;
  isNavigating    : bool;
  session         : Ext.manager;
  hash            : string;
  routeParams     : option (gmap string string);
  trace           : list event;
  parked          : option suspension;
  background      : list string
}.

Definition set_authReady (b : bool) (w : world) : world :=
  World (isReady w) b (currentPath w) (navigationQueue w) (isNavigating w)
        (session w) (hash w) (routeParams w) (trace w) (parked w) (background w).
Definition set_currentPath (p : option string) (w : world) : world :=
  World (isReady w) (authReady w) p (navigationQueue w) (isNavigating w)
        (session w) (hash w) (routeParams w) (trace w) (parked w) (background w).
Definition set_navigationQueue (q : list string) (w : world) : world :=
  World (isReady w) (authReady w) (currentPath w) q (isNavigating w)
        (session w) (hash w) (routeParams w) (trace w) (parked w) (background w).
Definition set_isNavigating (b : bool) (w : world) : world :=
  World (isReady w) (authReady w) (currentPath w) (navigationQueue w) b
        (session w) (hash w) (routeParams w) (trace w) (parked w) (background w).
Definition set_session (m : Ext.manager) (w : world) : world :=
  World (isReady w) (authReady w) (currentPath w) (navigationQueue w)
        (isNavigating w) m (hash w) (routeParams w) (trace w) (parked w)
        (background w).
Definition set_hash (h : string) (w : world) : world :=
  World (isReady w) (authReady w) (currentPath w) (navigationQueue w)
        (isNavigating w) (session w) h (routeParams w) (trace w) (parked w)
        (background w).
Definition set_routeParams (p : gmap string string) (w : world) : world :=
  World (isReady w) (authReady w) (currentPath w) (navigationQueue w)
        (isNavigating w) (session w) (hash w) (Some p) (trace w) (parked w)
        (background w).
Definition emit (e : event) (w : world) : world :=
  World (isReady w) (authReady w) (currentPath w) (navigationQueue w)
        (isNavigating w) (session w) (hash w) (routeParams w) (trace w ++ [e])
        (parked w) (background w).
Definition set_parked (s : option suspension) (w : world) : world :=
  World (isReady w) (authReady w) (currentPath w) (navigationQueue w)
        (isNavigating w) (session w) (hash w) (routeParams w) (trace w) s
        (background w).
Definition set_background (b : list string) (w : world) : world :=
  World (isReady w) (authReady w) (currentPath w) (navigationQueue w)
        (isNavigating w) (session w) (hash w) (routeParams w) (trace w)
        (parked w) b.

(** [window.location.hash = h]. *)
Definition assignHash (h : string) (w : world) : world :=
  emit (EvHash h) (set_hash h w).

(** *** [loadPage] *)

(** [loadPage(path)] once the route is resolved, up to its [await fetch]:
    publishes the parameters and issues the request. *)
Definition loadPageFetch (m : match_result) (w : world) : world :=
  emit (EvFetch (Js.get routes (route m))) (set_routeParams (params m) w).

(** [loadPage(path)] up to its first suspension.  The boolean tells whether
    the caller's [await] really suspends.  For an unknown route the login
    page is loaded by a call that is not awaited: its fetch is issued at
    once and the rest of it runs in the background. *)
Definition loadPageBegin (path : string) (w : world) : bool * world :=
  let w := emit (EvLoadPage path) w in
  match matchRoute path with
  | Some m => (true, loadPageFetch m w)
  | None =>
      let w := emit (EvLoadPage "/login") w in
      match matchRoute "/login" with
      | Some m =>
          (false,
           set_background (background w ++ ["/login"]) (loadPageFetch m w))
      | None => (false, w)  (* not reached: "/login" is in [routes] *)
      end
  end.

(** The rest of [loadPage(path)] after the fetch was answered. *)
Definition loadPageEnd (path : string) (o : load_outcome) (w : world) : world :=
  let w := emit (EvLoaded path o) w in
  match o with
  | Rendered =>
      if negb (String.eqb (hash w) ("#" +:+ path))
      then assignHash ("#" +:+ path) w else w
  | NoContainer | LoadError => w
  end.

(** *** [_navigate] *)

(** [if (!path.startsWith('/')) path = '/' + path]. *)
Definition normalize (path : string) : string :=
  if negb (Js.startsWith "/" path) then "/" +:+ path else path.

(** The [finally] block. *)
Definition finish (path : string) (w : world) : world :=
  emit (EvDone path) (set_isNavigating false w).

(** [window.location.hash = '#' + target; this.isNavigating = false; return]. *)
Definition redirect (target path : string) (w : world) : status * world :=
  (Done, finish path (set_isNavigating false (assignHash ("#" +:+ target) w))).

(** [currentUserType === 'personal' ? '/personal/dashboard' : '/student/dashboard']. *)
Definition dashboardOf (currentUserType : option string) : string :=
  if bool_decide (currentUserType = Some "personal")
  then "/personal/dashboard" else "/student/dashboard".

(** [currentUserType !== requiredType]. *)
Definition strictNeq (currentUserType : option string)
    (requiredType : option Js.prop) : bool :=
  match currentUserType, requiredType with
  | Some t, Some (Js.Own r) => negb (String.eqb t r)
  | None, None => false
  | _, _ => true
  end.

(** Truthiness of [currentUserType]. *)
Definition truthyType (currentUserType : option string) : bool :=
  match currentUserType with Some t => Js.truthy_str t | None => false end.

(** The page-load step at the end of the [try] block. *)
Definition loadStep (path : string) (w : world) : status * world :=
  if negb (bool_decide (currentPath w = Some path)) then
    match loadPageBegin path w with
    | (true, w') => (Suspended (AwaitLoad path), w')
    | (false, w') => (Done, finish path (set_currentPath (Some path) w'))
    end
  else (Done, finish path w).

(** The guard for a public route with a logged-in user. *)
Definition publicGuard (path : string) (w : world) : status * world :=
  let isAuthenticated := AuthManager.isAuthenticated (session w) in
  let currentUserType := AuthManager.getCurrentUserType (session w) in
  if bool_decide (path ∈ publicRoutes) && isAuthenticated
     && truthyType currentUserType
  then
    let redirectPath := dashboardOf currentUserType in
    if negb (String.eqb path redirectPath) then redirect redirectPath path w
    else loadStep path w
  else loadStep path w.

(** [_navigate] from the point where the session is known to be ready:
    the guard for a protected route, then the rest. *)
Definition guards (path : string) (w : world) : status * world :=
  let requiredType := getRequiredType path in
  let isAuthenticated := AuthManager.isAuthenticated (session w) in
  let currentUserType := AuthManager.getCurrentUserType (session w) in
  if Js.truthy requiredType then
    if negb isAuthenticated then redirect "/login" path w
    else if strictNeq currentUserType requiredType then
      let redirectPath := dashboardOf currentUserType in
      if negb (String.eqb path redirectPath) then redirect redirectPath path w
      else publicGuard path w
    else publicGuard path w
  else publicGuard path w.

(** [_navigate(path)] up to its first suspension.  [waitForAuth] resolves
    without a real suspension when the AuthManager is initialised. *)
Definition _navigate (path : string) (w : world) : status * world :=
  let w := emit (EvNavigate path) (set_isNavigating true w) in
  let path := normalize path in
  if negb (authReady w) then
    if Ext.isInitialized (session w) then guards path (set_authReady true w)
    else (Suspended (AwaitAuth path), w)
  else guards path w.

(** [_navigate] resumed after [waitForAuth] resolved (by its poll or by its
    timeout: both set [authReady]). *)
Definition afterAuth (path : string) (w : world) : status * world :=
  guards path (set_authReady true w).

(** [_navigate] resumed after [loadPage(path)] returned. *)
Definition afterLoad (path : string) (o : load_outcome) (w : world) : world :=
  finish path (set_currentPath (Some path) (loadPageEnd path o w)).

(** *** [navigate] *)

(** The [while (this.navigationQueue.length > 0)] loop, until the queue is
    empty or a [_navigate] suspends; [fuel] bounds the iterations. *)
Fixpoint drainLoop (fuel : nat) (w : world) : world :=
  match fuel with
  | O => w
  | S fuel' =>
      match navigationQueue w with
      | [] => w
      | nextPath :: rest =>
          match _navigate nextPath (set_navigationQueue rest w) with
          | (Done, w') => drainLoop fuel' w'
          | (Suspended s, w') => set_parked (Some s) w'
          end
      end
  end.

Definition drain (w : world) : world :=
  drainLoop (List.length (navigationQueue w)) w.

(** [navigate(path)], called from an event handler or a page. *)
Definition navigate (path : string) (w : world) : world :=
  if isNavigating w && bool_decide (currentPath w = Some path)
  then emit (EvDropped path) w
  else
    let w :=
      if bool_decide (navigationQueue w = [])
         || negb (bool_decide (last (navigationQueue w) = Some path))
      then set_navigationQueue (navigationQueue w ++ [path]) w
      else w in
    if isNavigating w then w else drain w.

(** The suspended loop is resumed: the pending [await] completes and the
    loop goes on. [o] is the answer to a pending page load. *)
Definition resume (o : load_outcome) (w : world) : world :=
  match parked w with
  | None => w
  | Some (AwaitAuth path) =>
      match afterAuth path (set_parked None w) with
      | (Done, w') => drain w'
      | (Suspended s, w') => set_parked (Some s) w'
      end
  | Some (AwaitLoad path) => drain (afterLoad path o (set_parked None w))
  end.

(** A page load running in the background completes. *)
Definition backgroundDone (o : load_outcome) (w : world) : world :=
  match background w with
  | [] => w
  | path :: rest => loadPageEnd path o (set_background rest w)
  end.

(** What can happen between two turns of the event loop. *)
Inductive input :=
  | Navigate (path : string)
  | Resume (o : load_outcome)
  | BackgroundDone (o : load_outcome)
  | SessionChange (m : Ext.manager).

Definition step (i : input) (w : world) : world :=
  match i with
  | Navigate path => navigate path w
  | Resume o => resume o w
  | BackgroundDone o => backgroundDone o w
  | SessionChange m => set_session m w
  end.

Definition run (inputs : list input) (w : world) : world :=
  foldl (fun w i => step i w) w inputs.

(** The router as the constructor leaves it, next to a given session and
    location hash. *)
Definition initial (m : Ext.manager) (h : string) : world :=
  World false false None [] false m h None [] None [].

(** The paths [_navigate] was entered with, in order. *)
Definition executions (tr : list event) : list string :=
  omap (fun e => match e with EvNavigate p => Some p | _ => None end) tr.

(** The values assigned to [window.location.hash], in order. *)
Definition hashWrites (tr : list event) : list string :=
  omap (fun e => match e with EvHash h => Some h | _ => None end) tr.

End Router.

(** ** Route resolution as the specification words it *)

Module RouteSpec.
Import Router.

(** A pattern segment accepts a path segment when it is a parameter
    (prefix [:]) or literally equal. *)
Definition segmentMatches (r p : string) : bool :=
  Js.startsWith ":" r || String.eqb r p.

(** A pattern with parameter segments matches a path when the segment
    counts are equal and every segment is accepted. *)
Definition patternMatches (pattern path : string) : bool :=
  Js.includes ":" pattern
  && (List.length (Js.split "/" pattern) =? List.length (Js.split "/" path))%nat
  && forallb (fun rp => segmentMatches rp.1 rp.2)
             (zip (Js.split "/" pattern) (Js.split "/" path)).

(** Parameter values extracted into a map, segment by segment. *)
Definition bindParam (acc : gmap string string) (rp : string * string)
    : gmap string string :=
  if Js.startsWith ":" rp.1 then <[Js.slice1 rp.1 := rp.2]> acc else acc.

Definition extractParams (pattern path : string) : gmap string string :=
  foldl bindParam ∅ (zip (Js.split "/" pattern) (Js.split "/" path)).

(** Exact-match lookup first, otherwise the first matching pattern in table
    order. *)
Definition resolve (table : list (string * string)) (path : string)
    : option match_result :=
  if Js.truthy (Js.get table path) then Some (MatchResult path ∅)
  else
    match List.find (fun e => patternMatches e.1 path) table with
    | Some (pattern, _) => Some (MatchResult pattern (extractParams pattern path))
    | None => None
    end.

End RouteSpec.

(** ** Observations on one navigation *)

Module Observe.
Import Router.

(** No navigation is running or pending. *)
Definition idle (w : world) : Prop :=
  isNavigating w = false /\ navigationQueue w = [] /\ parked w = None.

(** The session subsystem has produced its first state, or the router has
    already waited for it. *)
Definition sessionReady (w : world) : bool :=
  authReady w || Ext.isInitialized (session w).

(** Processing [path] from [w] ended in [w'] by a redirect to [target]:
    the only effect after [before] is the assignment of the hash; no page
    load was started, and the current page is the one of [w]. *)
Definition redirectedTo (target path : string) (before : list event)
    (w w' : world) : Prop :=
  hash w' = "#" +:+ target
  /\ trace w' = before ++ [EvHash ("#" +:+ target); EvDone path]
  /\ currentPath w' = currentPath w
  /\ routeParams w' = routeParams w
  /\ background w' = background w
  /\ navigationQueue w' = navigationQueue w
  /\ isNavigating w' = false.

(** Processing [p] from [w] is answered by a redirect to [target] on every
    way into [_navigate]: at the guards themselves; through [_navigate] when
    the session subsystem is ready; through [navigate] on an idle router;
    and, when the router first has to wait for the session subsystem, once
    that wait is over (the session being the one of [w]). *)
Definition redirects (target p : string) (w : world) : Prop :=
  ((guards (normalize p) w).1 = Done
   /\ redirectedTo target (normalize p) (trace w) w (guards (normalize p) w).2)
  /\ (sessionReady w = true ->
      (_navigate p w).1 = Done
      /\ redirectedTo target (normalize p) (trace w ++ [EvNavigate p]) w
                      (_navigate p w).2)
  /\ (idle w -> sessionReady w = true ->
      parked (navigate p w) = None
      /\ redirectedTo target (normalize p) (trace w ++ [EvNavigate p]) w
                      (navigate p w))
  /\ (idle w -> sessionReady w = false ->
      parked (navigate p w) = Some (AwaitAuth (normalize p))
      /\ trace (navigate p w) = trace w ++ [EvNavigate p]
      /\ forall o,
          parked (resume o (navigate p w)) = None
          /\ redirectedTo target (normalize p) (trace w ++ [EvNavigate p]) w
                          (resume o (navigate p w))).

(** The canonical dashboard of a role: [/personal/dashboard] for
    [personal], [/student/dashboard] for [student]. *)
Definition canonicalDashboard (role : string) : string :=
  "/" +:+ role +:+ "/dashboard".

(** The effects of one complete [loadPage(path)] for a route found in the
    table with page resource [page], answered by [o], when the location
    hash was [h] before. *)
Definition loadEvents (path page : string) (o : load_outcome) (h : string)
    : list event :=
  [EvLoadPage path; EvFetch (Some (Js.Own page)); EvLoaded path o]
  ++ match o with
     | Rendered =>
         if negb (String.eqb h ("#" +:+ path)) then [EvHash ("#" +:+ path)]
         else []
     | _ => []
     end.

(** [wf] is the world after [p] was processed from [w] without any
    redirect: [p] is the current page, loaded by one [loadPage] (answered
    by [o]) unless it was the current page already. *)
Definition loaded (p page : string) (o : load_outcome) (w wf : world) : Prop :=
  currentPath wf = Some (normalize p)
  /\ parked wf = None
  /\ isNavigating wf = false
  /\ trace wf =
       trace w ++ EvNavigate p ::
         (if bool_decide (currentPath w = Some (normalize p)) then []
          else loadEvents (normalize p) page o (hash w))
         ++ [EvDone (normalize p)].

(** Processing [p] from [w] falls through both guards to the page-load
    step, and a navigation to [p] on an idle router ends with the page
    loaded once the pending waits (for the session subsystem, for the page)
    are over. *)
Definition loads (p page : string) (w : world) : Prop :=
  guards (normalize p) w = loadStep (normalize p) w
  /\ (idle w -> forall o, loaded p page o w (resume o (resume o (navigate p w)))).

(** What processing a path never touches: the queue, the session, the
    readiness flags and the record of the suspended loop. *)
Definition framed (w w' : world) : Prop :=
  navigationQueue w' = navigationQueue w
  /\ session w' = session w
  /\ authReady w' = authReady w
  /\ parked w' = parked w
  /\ isReady w' = isReady w.

(** What a [navigate(p)] issued while the loop is suspended appends to the
    queue: nothing when [p] is the current page (dropped) or already the
    tail of the queue (collapsed), [p] otherwise. *)
Definition queued (p : string) (w : world) : list string :=
  if bool_decide (currentPath w = Some p) then []
  else if bool_decide (navigationQueue w = [])
          || negb (bool_decide (last (navigationQueue w) = Some p))
       then [p] else [].

(** [_navigate] runs are serial in a trace: every [EvNavigate] is followed
    by its [EvDone] before the next [EvNavigate].  [serialFrom busy tr] is
    [Some busy'] when [tr], read from a router that is busy or not, is
    serial and leaves it busy or not, and [None] when two runs overlap. *)
Fixpoint serialFrom (busy : bool) (tr : list event) : option bool :=
  match tr with
  | [] => Some busy
  | EvNavigate _ :: rest => if busy then None else serialFrom true rest
  | EvDone _ :: rest => if busy then serialFrom false rest else None
  | _ :: rest => serialFrom busy rest
  end.

(** A world the router can be in between two turns of the event loop. *)
Definition reachable (w : world) : Prop :=
  exists m h inputs, w = run inputs (initial m h).

(** The invariant of reachable worlds: the trace is serial and agrees with
    the busy flag; the flag is set exactly while the loop is suspended; a
    page is awaited only when it is not the current one; the session wait
    happens only before the router is ready, when no page is current; an
    idle router has an empty queue. *)
Definition Inv (w : world) : Prop :=
  serialFrom false (trace w) = Some (isNavigating w)
  /\ match parked w with
     | None => isNavigating w = false /\ navigationQueue w = []
     | Some (AwaitLoad path) =>
         isNavigating w = true /\ currentPath w <> Some path
         /\ authReady w = true
     | Some (AwaitAuth path) => isNavigating w = true /\ authReady w = false
     end
  /\ (authReady w = false -> currentPath w = None).

(** The state of the [while] loop between two iterations. *)
Definition Mid (w : world) : Prop :=
  serialFrom false (trace w) = Some false
  /\ isNavigating w = false
  /\ parked w = None
  /\ (authReady w = false -> currentPath w = None).

(** A bound on the resumptions still needed to drain the queue. *)
Definition potential (w : world) : nat :=
  2 * List.length (navigationQueue w)
  + match parked w with
    | None => 0
    | Some (AwaitLoad _) => 1
    | Some (AwaitAuth _) => 2
    end.

(** What one run of the guards does, as far as the invariant needs it. *)
Definition summary (path : string) (w : world) (r : status * world) : Prop :=
  framed w r.2
  /\ exists evs,
       trace r.2 = trace w ++ evs /\ executions evs = []
       /\ match r.1 with
          | Done =>
              isNavigating r.2 = false /\ serialFrom true evs = Some false
          | Suspended s =>
              s = AwaitLoad path /\ isNavigating r.2 = isNavigating w
              /\ currentPath r.2 <> Some path
              /\ serialFrom true evs = Some true
          end.

End Observe.

(** ** Router: event listeners and navigation helpers *)

Module Browser.
Import Router.

(** The [hashchange] listener of the constructor:
    [if (this.authReady) this.navigate(window.location.hash.slice(1))]. *)
Definition onHashChange (w : world) : world :=
  if authReady w then navigate (Js.slice1 (hash w)) w else w.

(** The [popstate] listener: the same body. *)
Definition onPopState (w : world) : world :=
  if authReady w then navigate (Js.slice1 (hash w)) w else w.

(** The [goTo...] helpers. *)
Definition goToLogin : world -> world := navigate "/login".
Definition goToSignup : world -> world := navigate "/signup".
Definition goToPersonalDashboard : world -> world := navigate "/personal/dashboard".
Definition goToStudentDashboard : world -> world := navigate "/student/dashboard".
Definition goToCreateWorkout : world -> world := navigate "/personal/create-workout".
Definition goToExercises : world -> world := navigate "/personal/exercises".
Definition goToViewWorkout : world -> world := navigate "/student/view-workout".
Definition goTo (path : string) : world -> world := navigate path.

(** The path of [goToStudentDetails(studentId)]:
    [`/personal/student/${studentId}`]. *)
Definition studentDetailsPath (studentId : string) : string :=
  "/personal/student/" +:+ studentId.

Definition goToStudentDetails (studentId : string) : world -> world :=
  navigate (studentDetailsPath studentId).

(** The path of [goToVolumeAnalysis(studentId)]:
    [`/personal/volume/${studentId}`]. *)
Definition volumeAnalysisPath (studentId : string) : string :=
  "/personal/volume/" +:+ studentId.

Definition goToVolumeAnalysis (studentId : string) : world -> world :=
  navigate (volumeAnalysisPath studentId).

(** No two neighbours of the list are equal. *)
Fixpoint noRepeat (q : list string) : Prop :=
  match q with
  | [] => True
  | p :: rest =>
      match rest with
      | [] => True
      | p' :: _ => p <> p' /\ noRepeat rest
      end
  end.

End Browser.

(** * Properties *)

Section RouteResolution.
Import Router RouteSpec.

Lemma matchParts_fold (rs ps : list string) (acc : gmap string string) :
  List.length rs = List.length ps ->
  matchParts rs ps acc =
    if forallb (fun rp => segmentMatches rp.1 rp.2) (zip rs ps)
    then Some (foldl bindParam acc (zip rs ps)) else None.
Proof.
  revert ps acc. induction rs as [|r rs IH]; intros [|p ps] acc Hlen;
    simpl in *; try discriminate; try reflexivity.
  unfold segmentMatches at 1, bindParam at 2. simpl.
  destruct (Js.startsWith ":" r); simpl.
  - apply IH. lia.
  - destruct (String.eqb r p); simpl; [apply IH; lia | reflexivity].
Qed.

Lemma matchPatterns_find (table : list (string * string)) (path : string) :
  matchPatterns table path =
    match List.find (fun e => patternMatches e.1 path) table with
    | Some (pattern, _) => Some (MatchResult pattern (extractParams pattern path))
    | None => None
    end.
Proof.
  induction table as [|[r file] table IH]; simpl; [reflexivity|].
  unfold patternMatches at 1. simpl.
  destruct (Js.includes ":" r); simpl; [|exact IH].
  destruct (Nat.eqb_spec (List.length (Js.split "/" r))
                         (List.length (Js.split "/" path))) as [Hlen|Hlen];
    simpl; [|exact IH].
  rewrite (matchParts_fold _ _ ∅ Hlen).
  destruct (forallb _ _); [reflexivity | exact IH].
Qed.

(** C9. Route matching follows the specified resolution on every table and
    path: an exact entry wins with empty parameters, otherwise the first
    pattern with parameter segments whose segment count equals the path's
    and whose literal segments are equal, with the parameter values
    extracted into a map.  On the router's table, [/personal/student/:id]
    matches [/personal/student/42] with [{id: "42"}] and nothing matches
    [/personal/student/42/extra]. *)
Theorem matchRoute_resolution :
  (forall table path, matchRouteIn table path = resolve table path)
  /\ matchRoute "/personal/dashboard"
       = Some (MatchResult "/personal/dashboard" ∅)
  /\ patternMatches "/personal/student/:id" "/personal/student/42" = true
  /\ matchRoute "/personal/student/42"
       = Some (MatchResult "/personal/student/:id" {["id" := "42"]})
  /\ patternMatches "/personal/student/:id" "/personal/student/42/extra" = false
  /\ matchRoute "/personal/student/42/extra" = None.
Proof.
  split; [|repeat split; vm_compute; reflexivity].
  intros table path. unfold matchRouteIn, resolve.
  destruct (Js.truthy (Js.get table path)); [reflexivity|].
  apply matchPatterns_find.
Qed.

End RouteResolution.

Section Guards.
Import Router Observe.

Lemma redirect_redirectedTo (target path : string) (w : world) :
  redirectedTo target path (trace w) w (redirect target path w).2.
Proof.
  unfold redirectedTo, redirect; simpl.
  rewrite <- app_assoc. repeat split.
Qed.

Lemma loadStep_framed (path : string) (w : world) :
  framed w (loadStep path w).2.
Proof.
  unfold loadStep, loadPageBegin.
  repeat case_match; simplify_eq; repeat split.
Qed.

Lemma publicGuard_framed (path : string) (w : world) :
  framed w (publicGuard path w).2.
Proof.
  unfold publicGuard.
  repeat case_match; try apply loadStep_framed; repeat split.
Qed.

Lemma guards_framed (path : string) (w : world) :
  framed w (guards path w).2.
Proof.
  unfold guards.
  repeat case_match; try apply publicGuard_framed; repeat split.
Qed.

Lemma _navigate_queue (path : string) (w : world) :
  navigationQueue (_navigate path w).2 = navigationQueue w.
Proof.
  unfold _navigate. simpl.
  repeat case_match; try reflexivity;
    match goal with
    | |- context [guards ?p ?w0] => destruct (guards_framed p w0) as (-> & _)
    end; reflexivity.
Qed.

Lemma drainLoop_fuel (fuel : nat) (w : world) :
  List.length (navigationQueue w) <= fuel ->
  drainLoop fuel w = drain w.
Proof.
  unfold drain. revert w.
  induction fuel as [|fuel IH]; intros w Hlen.
  - destruct (navigationQueue w); simpl in *; [reflexivity | lia].
  - destruct (navigationQueue w) as [|p rest] eqn:Hq; simpl; rewrite Hq;
      [reflexivity|].
    pose proof (_navigate_queue p (set_navigationQueue rest w)) as Hpres.
    destruct (_navigate p (set_navigationQueue rest w)) as [[|s] w'];
      simpl in *; [|reflexivity].
    rewrite IH by (rewrite Hpres; lia).
    rewrite Hpres. reflexivity.
Qed.

(** One turn of the [while] loop. *)
Lemma drain_unfold (w : world) :
  drain w =
    match navigationQueue w with
    | [] => w
    | nextPath :: rest =>
        match _navigate nextPath (set_navigationQueue rest w) with
        | (Done, w') => drain w'
        | (Suspended s, w') => set_parked (Some s) w'
        end
    end.
Proof.
  unfold drain at 1.
  destruct (navigationQueue w) as [|p rest] eqn:Hq; simpl; rewrite ?Hq;
    [reflexivity|].
  pose proof (_navigate_queue p (set_navigationQueue rest w)) as Hpres.
  destruct (_navigate p (set_navigationQueue rest w)) as [[|s] w'];
    simpl in *; [|reflexivity].
  apply drainLoop_fuel. rewrite Hpres. lia.
Qed.

Lemma navigate_idle (path : string) (w : world) :
  idle w ->
  navigate path w =
    match _navigate path (set_navigationQueue [] w) with
    | (Done, w') => drain w'
    | (Suspended s, w') => set_parked (Some s) w'
    end.
Proof.
  intros (Hnav & Hq & _). unfold navigate. rewrite Hnav, Hq. simpl.
  rewrite Hnav, drain_unfold. simpl. reflexivity.
Qed.

Lemma redirects_intro (target p : string) (w : world) :
  (forall w0, session w0 = session w ->
     guards (normalize p) w0 = redirect target (normalize p) w0) ->
  redirects target p w.
Proof.
  intros Hg.
  split; [|split; [|split]].
  - rewrite Hg by reflexivity.
    split; [reflexivity | apply redirect_redirectedTo].
  - intros Hready. unfold sessionReady in Hready.
    unfold _navigate; simpl.
    destruct (authReady w) eqn:Har; simpl in *;
      [|rewrite Hready]; rewrite Hg by reflexivity;
      (split; [reflexivity|]);
      unfold redirectedTo; simpl; rewrite <- app_assoc; repeat split.
  - intros Hidle Hready. rewrite (navigate_idle _ _ Hidle).
    destruct Hidle as (Hbusy & Hq & Hpark).
    unfold sessionReady in Hready.
    unfold _navigate; simpl.
    destruct (authReady w) eqn:Har; simpl in *;
      [|rewrite Hready]; rewrite Hg by reflexivity; simpl;
      rewrite drain_unfold; simpl;
      (split; [assumption|]);
      unfold redirectedTo; simpl; rewrite <- app_assoc, ?Hq;
      repeat split.
  - intros Hidle Hready. rewrite (navigate_idle _ _ Hidle).
    destruct Hidle as (Hbusy & Hq & Hpark).
    unfold sessionReady in Hready.
    apply orb_false_iff in Hready as [Har Hinit].
    unfold _navigate; simpl. rewrite Har, Hinit; simpl.
    split; [reflexivity|]. split; [reflexivity|].
    intros o. unfold resume; simpl. unfold afterAuth.
    rewrite Hg by reflexivity. simpl.
    rewrite drain_unfold; simpl.
    split; [reflexivity|].
    unfold redirectedTo; simpl. rewrite <- app_assoc, ?Hq. repeat split.
Qed.

Ltac run_nav Hg Hroute Hpage Hq Hpark :=
  repeat (first
    [ progress simpl
    | rewrite drain_unfold
    | rewrite Hg by reflexivity
    | rewrite Hroute
    | rewrite Hpage
    | progress rewrite ?Hq, ?Hpark
    | progress unfold resume, afterAuth, afterLoad, loadPageEnd, loadStep,
        loadPageBegin, loadPageFetch
    | case_bool_decide ]).

Lemma loads_intro (p page : string) (w : world) :
  (forall w0, session w0 = session w ->
     guards (normalize p) w0 = loadStep (normalize p) w0) ->
  matchRoute (normalize p) = Some (MatchResult (normalize p) ∅) ->
  Js.get routes (normalize p) = Some (Js.Own page) ->
  loads p page w.
Proof.
  intros Hg Hroute Hpage. split; [apply Hg; reflexivity|].
  intros Hidle o. rewrite (navigate_idle _ _ Hidle).
  destruct Hidle as (Hbusy & Hq & Hpark).
  unfold loaded, _navigate; simpl.
  destruct (authReady w) eqn:Har; simpl;
    [|destruct (Ext.isInitialized (session w)) eqn:Hinit; simpl];
    destruct o; run_nav Hg Hroute Hpage Hq Hpark;
    try (destruct (String.eqb (hash w) _); run_nav Hg Hroute Hpage Hq Hpark);
    unfold loadEvents; simpl; rewrite <- ?app_assoc; simpl;
    repeat split; auto; try congruence.
Qed.

(** C1. For every path with a required role and every session that is not
    authenticated, processing the path redirects to the login path and
    starts no page load. *)
Theorem unauthenticated_redirects_to_login (p : string) (w : world) :
  Js.truthy (getRequiredType (normalize p)) = true ->
  AuthManager.isAuthenticated (session w) = false ->
  redirects "/login" p w.
Proof.
  intros Hreq Hauth. apply redirects_intro. intros w0 Hs.
  unfold guards. rewrite Hreq, Hs, Hauth. reflexivity.
Qed.

(** The protected path [/student/view-workout] with nobody signed in, on a
    router that has just been constructed and whose AuthManager is
    initialised. *)
Lemma unauthenticated_redirects_to_login_witness :
  redirects "/login" "/student/view-workout"
    (initial (Ext.Manager None None true) "").
Proof.
  apply (unauthenticated_redirects_to_login "/student/view-workout"
           (initial (Ext.Manager None None true) ""));
    reflexivity.
Defined.

Lemma own_In (table : list (string * string)) (k v : string) :
  Js.own table k = Some v -> In v table.*2.
Proof.
  induction table as [|[k' v'] table IH]; simpl; [discriminate|].
  destruct (String.eqb k' k); [intros [= ->]; left; reflexivity|].
  intros H; right; apply IH, H.
Qed.

Lemma typeOfPatterns_In (table : list (string * string)) (path t : string) :
  typeOfPatterns table path = Some t -> In t table.*2.
Proof.
  induction table as [|[r t'] table IH]; simpl; [discriminate|].
  destruct (negb (Js.includes ":" r)); [intros H; right; apply IH, H|].
  destruct (negb _); [intros H; right; apply IH, H|].
  destruct (matchTypeParts _ _); [|intros H; right; apply IH, H].
  intros [= ->]; left; reflexivity.
Qed.

(** A role required by the router's table is [personal] or [student]. *)
Lemma getRequiredType_role (path R : string) :
  getRequiredType path = Some (Js.Own R) -> R = "personal" \/ R = "student".
Proof.
  unfold getRequiredType, getRequiredTypeIn. intros H.
  assert (In R protectedRoutes.*2) as HIn.
  { destruct (Js.truthy (Js.get protectedRoutes path)).
    - unfold Js.get in H.
      destruct (Js.own protectedRoutes path) eqn:Hown.
      + injection H as ->. eapply own_In, Hown.
      + destruct (existsb _ _); discriminate.
    - destruct (typeOfPatterns protectedRoutes path) eqn:Ht; [|discriminate].
      injection H as ->. eapply typeOfPatterns_In, Ht. }
  simpl in HIn. intuition auto.
Qed.

(** C2. For every path requiring role [R] and every authenticated session
    whose role [R'] is [personal] or [student] and differs from [R],
    processing the path redirects to the canonical dashboard of [R'] and
    starts no page load.  The exception of the path being that dashboard
    already never arises here, since each dashboard requires its own
    role. *)
Theorem role_mismatch_redirects_to_own_dashboard
    (p R R' : string) (w : world) :
  getRequiredType (normalize p) = Some (Js.Own R) ->
  AuthManager.isAuthenticated (session w) = true ->
  AuthManager.getCurrentUserType (session w) = Some R' ->
  R' = "personal" \/ R' = "student" ->
  R' <> R ->
  normalize p <> canonicalDashboard R'
  /\ redirects (canonicalDashboard R') p w.
Proof.
  intros Hreq Hauth Htype Hrole Hneq.
  assert (Hpath : normalize p <> canonicalDashboard R').
  { intros Heq. rewrite Heq in Hreq.
    destruct Hrole as [-> | ->]; vm_compute in Hreq; congruence. }
  split; [exact Hpath|].
  apply redirects_intro. intros w0 Hs.
  unfold guards. rewrite Hreq, Hs, Hauth, Htype. simpl.
  assert (String.eqb R' R = false) as -> by (apply String.eqb_neq, Hneq).
  assert (Js.truthy_str R = true) as ->
    by (destruct (getRequiredType_role _ _ Hreq) as [-> | ->]; reflexivity).
  simpl.
  assert (dashboardOf (Some R') = canonicalDashboard R') as ->
    by (destruct Hrole as [-> | ->]; reflexivity).
  apply String.eqb_neq in Hpath. rewrite Hpath. reflexivity.
Qed.

(** A student opening a trainer's student page. *)
Lemma role_mismatch_redirects_to_own_dashboard_witness :
  "/personal/student/42" <> "/student/dashboard"
  /\ redirects "/student/dashboard" "/personal/student/42"
       (initial (Ext.Manager (Some (Ext.User "u1" "ana@x.com"))
                             (Some "student") true) "").
Proof.
  apply (role_mismatch_redirects_to_own_dashboard
           "/personal/student/42" "personal" "student"
           (initial (Ext.Manager (Some (Ext.User "u1" "ana@x.com"))
                                 (Some "student") true) ""));
    [reflexivity | reflexivity | reflexivity | right; reflexivity
    | discriminate].
Defined.

Lemma publicRoutes_cases (path : string) :
  path ∈ publicRoutes ->
  path = "/login" \/ path = "/signup" \/ path = "/" \/ path = "/primeiro-acesso".
Proof.
  intros H. apply list_elem_of_In in H. simpl in H. intuition auto.
Qed.

(** A public path requires no role, is not a dashboard, and is an exact
    entry of the route table. *)
Lemma publicRoutes_facts (path : string) :
  path ∈ publicRoutes ->
  getRequiredType path = None
  /\ (forall t, String.eqb path (dashboardOf t) = false)
  /\ matchRoute path = Some (MatchResult path ∅)
  /\ exists page, Js.get routes path = Some (Js.Own page).
Proof.
  intros H.
  destruct (publicRoutes_cases _ H) as [-> | [-> | [-> | ->]]];
    (split; [vm_compute; reflexivity|]);
    (split; [intros t; unfold dashboardOf; case_bool_decide; reflexivity|]);
    (split; [vm_compute; reflexivity|]);
    eexists; vm_compute; reflexivity.
Qed.

(** C3. For every public path and every authenticated session: with a
    non-absent role, processing the path redirects to the dashboard the
    code computes for the role, which for [personal] and [student] is the
    role's canonical dashboard (a public path never is that dashboard);
    with an absent role there is no redirect and the public page is loaded.
    Two successive navigations to [/login] with role [personal] both end in
    the redirect to [/personal/dashboard]. *)
Theorem public_path_with_session (p : string) (w : world) :
  normalize p ∈ publicRoutes ->
  AuthManager.isAuthenticated (session w) = true ->
  (forall role,
     AuthManager.getCurrentUserType (session w) = Some role -> role <> "" ->
     normalize p <> dashboardOf (Some role)
     /\ redirects (dashboardOf (Some role)) p w
     /\ (role = "personal" \/ role = "student" ->
         dashboardOf (Some role) = canonicalDashboard role))
  /\ (AuthManager.getCurrentUserType (session w) = None ->
      exists page, Js.own routes (normalize p) = Some page /\ loads p page w)
  /\ executions (trace (run [Navigate "/login"; Navigate "/login"]
        (initial (Ext.Manager (Some (Ext.User "t1" "t@x.com"))
                              (Some "personal") true) "")))
       = ["/login"; "/login"]
     /\ hashWrites
          (trace (run [Navigate "/login"; Navigate "/login"]
            (initial (Ext.Manager (Some (Ext.User "t1" "t@x.com"))
                                  (Some "personal") true) "")))
        = ["#/personal/dashboard"; "#/personal/dashboard"].
Proof.
  intros Hpub Hauth.
  destruct (publicRoutes_facts _ Hpub) as (Hreq & Hdash & Hroute & page & Hpage).
  split; [|split; [|split; vm_compute; reflexivity]].
  - intros role Htype Hrole. split; [|split].
    + apply String.eqb_neq, Hdash.
    + apply redirects_intro. intros w0 Hs.
      unfold guards, publicGuard. rewrite Hreq, Hs, Hauth, Htype. simpl.
      rewrite bool_decide_eq_true_2 by assumption.
      assert (Js.truthy_str role = true) as ->
        by (destruct role; [contradiction | reflexivity]).
      simpl. rewrite Hdash. reflexivity.
    + intros [-> | ->]; reflexivity.
  - intros Htype. exists page. split.
    + unfold Js.get in Hpage.
      destruct (Js.own routes (normalize p)); [congruence|].
      destruct (existsb _ _); discriminate.
    + apply loads_intro; [|assumption|assumption].
      intros w0 Hs. unfold guards, publicGuard.
      rewrite Hreq, Hs, Hauth, Htype. simpl.
      rewrite andb_false_r. reflexivity.
Qed.

(** The sign-up page during an activation in progress: an identity is
    present, its role is not known yet. *)
Lemma public_path_with_session_witness :
  exists page,
    Js.own routes (normalize "/signup") = Some page
    /\ loads "/signup" page
         (initial (Ext.Manager (Some (Ext.User "u1" "ana@x.com")) None true) "").
Proof.
  apply (public_path_with_session "/signup"
           (initial (Ext.Manager (Some (Ext.User "u1" "ana@x.com")) None true)
                    ""));
    [vm_compute; set_solver | reflexivity | reflexivity].
Defined.

(** C10. For every authenticated session whose role is absent, [navigate]
    to the protected path [/student/dashboard] loads that page: the role
    differs from the required [student], the redirect target computed for
    every role other than [personal] (the absent one included) is
    [/student/dashboard] itself, so no redirect is made and control falls
    through to the page load. *)
Theorem absent_role_loads_student_dashboard (w : world) :
  AuthManager.isAuthenticated (session w) = true ->
  AuthManager.getCurrentUserType (session w) = None ->
  getRequiredType "/student/dashboard" = Some (Js.Own "student")
  /\ strictNeq None (getRequiredType "/student/dashboard") = true
  /\ (forall t, t <> Some "personal" -> dashboardOf t = "/student/dashboard")
  /\ loads "/student/dashboard" "pages/student/dashboard.html" w.
Proof.
  intros Hauth Htype.
  split; [vm_compute; reflexivity|].
  split; [vm_compute; reflexivity|].
  split.
  { intros t Ht. unfold dashboardOf. rewrite bool_decide_eq_false_2; done. }
  apply loads_intro; [|vm_compute; reflexivity..].
  intros w0 Hs.
  change (normalize "/student/dashboard") with "/student/dashboard".
  unfold guards, publicGuard.
  change (getRequiredType "/student/dashboard") with (Some (Js.Own "student")).
  rewrite Hs, Hauth, Htype. simpl.
  reflexivity.
Qed.

Lemma absent_role_loads_student_dashboard_witness :
  loads "/student/dashboard" "pages/student/dashboard.html"
    (initial (Ext.Manager (Some (Ext.User "u1" "ana@x.com")) None true) "").
Proof.
  apply (absent_role_loads_student_dashboard
           (initial (Ext.Manager (Some (Ext.User "u1" "ana@x.com")) None true)
                    ""));
    reflexivity.
Defined.

End Guards.

Section Queue.
Import Router Observe.

Lemma serialFrom_app (b : bool) (t1 t2 : list event) :
  serialFrom b (t1 ++ t2) = serialFrom b t1 ≫= fun b' => serialFrom b' t2.
Proof.
  revert b. induction t1 as [|e t1 IH]; intros b; simpl; [reflexivity|].
  destruct e, b; simpl; auto.
Qed.

Lemma executions_app (t1 t2 : list event) :
  executions (t1 ++ t2) = executions t1 ++ executions t2.
Proof. apply omap_app. Qed.

Lemma loadStep_summary (path : string) (w : world) :
  summary path w (loadStep path w).
Proof.
  split; [apply loadStep_framed|].
  unfold loadStep, loadPageBegin.
  case_bool_decide; simpl.
  - eexists; split; [reflexivity|]. repeat split.
  - destruct (matchRoute path); simpl.
    + eexists; split; [rewrite <- !app_assoc; reflexivity|].
      repeat split. assumption.
    + destruct (matchRoute "/login"); simpl;
        (eexists; split; [rewrite <- !app_assoc; reflexivity|]);
        repeat split.
Qed.

Lemma redirect_summary (target path : string) (w : world) :
  summary path w (redirect target path w).
Proof.
  split; [repeat split|].
  unfold redirect; simpl.
  eexists; split; [rewrite <- !app_assoc; reflexivity|]. repeat split.
Qed.

Lemma publicGuard_summary (path : string) (w : world) :
  summary path w (publicGuard path w).
Proof.
  unfold publicGuard.
  repeat case_match; auto using loadStep_summary, redirect_summary.
Qed.

Lemma guards_summary (path : string) (w : world) :
  summary path w (guards path w).
Proof.
  unfold guards.
  repeat case_match; auto using publicGuard_summary, redirect_summary.
Qed.

(** One [_navigate]: it enters once, leaves the queue and the record of the
    suspended loop alone, and either completes with the busy flag cleared
    or suspends with the flag set. *)
Lemma _navigate_summary (p : string) (w : world) :
  (authReady w = false -> currentPath w = None) ->
  navigationQueue (_navigate p w).2 = navigationQueue w
  /\ parked (_navigate p w).2 = parked w
  /\ (authReady (_navigate p w).2 = false -> currentPath (_navigate p w).2 = None)
  /\ exists evs,
       trace (_navigate p w).2 = trace w ++ EvNavigate p :: evs
       /\ executions evs = []
       /\ match (_navigate p w).1 with
          | Done =>
              isNavigating (_navigate p w).2 = false
              /\ serialFrom true evs = Some false
          | Suspended (AwaitLoad path) =>
              isNavigating (_navigate p w).2 = true
              /\ currentPath (_navigate p w).2 <> Some path
              /\ authReady (_navigate p w).2 = true
              /\ serialFrom true evs = Some true
          | Suspended (AwaitAuth path) =>
              isNavigating (_navigate p w).2 = true
              /\ authReady (_navigate p w).2 = false
              /\ serialFrom true evs = Some true
          end.
Proof.
  intros Hcur. unfold _navigate; simpl.
  destruct (authReady w) eqn:Har; simpl;
    [|destruct (Ext.isInitialized (session w)); simpl].
  1,2: match goal with
       | |- context [guards ?q ?w0] =>
           destruct (guards_summary q w0)
             as ((Hq & _ & Ha & Hp & _) & evs & Htr & Hex & Hst);
           destruct (guards q w0) as [[|s] w']; simpl in *
       end;
       try destruct Hst as (-> & Hnav & Hcp & Hser);
       try destruct Hst as (Hnav & Hser);
       (split; [assumption|]); (split; [assumption|]);
       (split; [congruence|]);
       exists evs; rewrite Htr, <- ?app_assoc; simpl; repeat split;
       congruence.
  split; [reflexivity|]. split; [reflexivity|]. split; [auto|].
  exists []. repeat split. assumption.
Qed.

Lemma Mid_Inv (w : world) : Mid w -> navigationQueue w = [] -> Inv w.
Proof.
  intros (Hser & Hnav & Hpark & Hcur) Hq. unfold Inv.
  rewrite Hpark, Hnav. auto.
Qed.

(** The [while] loop from a state between two iterations: it processes a
    prefix of the queue in order, and stops with the queue empty or with
    one [_navigate] suspended. *)
Lemma drain_spec (n : nat) (w : world) :
  List.length (navigationQueue w) = n -> Mid w ->
  Inv (drain w)
  /\ potential (drain w) <= 2 * n
  /\ exists k,
       executions (trace (drain w))
         = executions (trace w) ++ take k (navigationQueue w)
       /\ navigationQueue (drain w) = drop k (navigationQueue w).
Proof.
  revert w. induction n as [|n IH]; intros w Hlen HMid; rewrite drain_unfold.
  - destruct (navigationQueue w) eqn:Hq; [|discriminate].
    split; [apply Mid_Inv; assumption|].
    split; [unfold potential; rewrite Hq; destruct HMid as (_&_&->&_); simpl; lia|].
    exists 0. rewrite Hq, app_nil_r. split; reflexivity.
  - destruct (navigationQueue w) as [|p rest] eqn:Hq; [discriminate|].
    injection Hlen as Hlen.
    destruct HMid as (Hser & Hnav & Hpark & Hcur).
    destruct (_navigate_summary p (set_navigationQueue rest w) Hcur)
      as (Hq' & Hp' & Hcur' & evs & Htr & Hex & Hst).
    simpl in Hq', Hp', Htr.
    destruct (_navigate p (set_navigationQueue rest w)) as [[|s] w'];
      simpl in *.
    + destruct Hst as (Hnav' & Hser').
      assert (Mid w') as HMid'.
      { split; [|split; [|split]]; [|assumption|congruence|assumption].
        rewrite Htr, serialFrom_app, Hser. simpl. assumption. }
      destruct (IH w' ltac:(congruence) HMid') as (HInv & Hpot & k & Hk1 & Hk2).
      split; [assumption|]. split; [lia|].
      exists (S k). simpl. rewrite Hk1, Hk2, Hq', Htr.
      rewrite executions_app. simpl. rewrite Hex, <- app_assoc.
      split; reflexivity.
    + split; [|split].
      * unfold Inv; simpl. rewrite Htr, serialFrom_app, Hser. simpl.
        destruct s; destruct Hst as (H1 & H2 & H3); try destruct H3 as (H3 & H4);
          rewrite H1; repeat split; auto.
      * unfold potential; simpl. rewrite Hq'. destruct s; lia.
      * exists 1. simpl. rewrite Htr, Hq', executions_app. simpl.
        rewrite Hex, take_0, drop_0. split; reflexivity.
Qed.

(** One resumption of the suspended loop: progress, and again a prefix of
    the queue processed in order. *)
Lemma resume_spec (o : load_outcome) (w : world) :
  Inv w -> parked w <> None ->
  Inv (resume o w)
  /\ potential (resume o w) < potential w
  /\ exists k,
       executions (trace (resume o w))
         = executions (trace w) ++ take k (navigationQueue w)
       /\ navigationQueue (resume o w) = drop k (navigationQueue w).
Proof.
  intros (Hser & Hpk & Hcur) Hparked. unfold resume.
  destruct (parked w) as [[path|path]|] eqn:Hp; [| |contradiction].
  - destruct Hpk as (Hnav & Har). unfold afterAuth.
    destruct (guards_summary path (set_authReady true (set_parked None w)))
      as ((Hq & _ & Ha & Hp' & _) & evs & Htr & Hex & Hst).
    destruct (guards path (set_authReady true (set_parked None w)))
      as [[|s] w']; simpl in *.
    + destruct Hst as (Hnav' & Hser').
      assert (Mid w') as HMid.
      { split; [|split; [|split]]; [|assumption|assumption|congruence].
        rewrite Htr, serialFrom_app, Hser, Hnav. simpl. assumption. }
      destruct (drain_spec _ w' eq_refl HMid) as (HInv & Hpot & k & Hk1 & Hk2).
      split; [assumption|].
      split; [unfold potential at 2; rewrite Hp, <- Hq; lia|].
      exists k. rewrite Hk1, Hk2, Hq, Htr, executions_app, Hex, app_nil_r.
      split; reflexivity.
    + destruct Hst as (-> & Hnav' & Hcp & Hser').
      split; [|split].
      * unfold Inv; simpl.
        rewrite Htr, serialFrom_app, Hser, Hnav. simpl.
        rewrite Hser', Hnav', Hnav, Ha. repeat split; auto. congruence.
      * unfold potential; simpl. rewrite Hp, Hq. lia.
      * exists 0. simpl. rewrite drop_0, Htr, executions_app, Hex, Hq.
        split; reflexivity.
  - destruct Hpk as (Hnav & Hcp & Har).
    assert (Mid (afterLoad path o (set_parked None w))) as HMid.
    { unfold afterLoad, loadPageEnd. simpl.
      split; [|split; [|split]].
      - destruct o; simpl; try destruct (String.eqb (hash w) _); simpl;
          rewrite ?serialFrom_app, Hser, Hnav; reflexivity.
      - reflexivity.
      - destruct o; simpl; try destruct (String.eqb (hash w) _); reflexivity.
      - destruct o; simpl; try destruct (String.eqb (hash w) _); simpl;
          congruence. }
    assert (navigationQueue (afterLoad path o (set_parked None w))
            = navigationQueue w) as Hq
      by (unfold afterLoad, loadPageEnd; simpl; destruct o; simpl;
          try destruct (String.eqb (hash w) _); reflexivity).
    assert (executions (trace (afterLoad path o (set_parked None w)))
            = executions (trace w)) as Hex
      by (unfold afterLoad, loadPageEnd; simpl; destruct o; simpl;
          try destruct (String.eqb (hash w) _); simpl;
          rewrite ?executions_app; simpl; rewrite ?app_nil_r; reflexivity).
    destruct (drain_spec _ _ eq_refl HMid) as (HInv & Hpot & k & Hk1 & Hk2).
    split; [assumption|].
    split; [unfold potential at 2; rewrite Hp, <- Hq; lia|].
    exists k. rewrite Hk1, Hk2, Hq, Hex. split; reflexivity.
Qed.

Lemma resume_idle (o : load_outcome) (w : world) :
  parked w = None -> resume o w = w.
Proof. intros H. unfold resume. rewrite H. reflexivity. Qed.

(** Any number of resumptions: the loop processes a prefix of the queue in
    order, and after [potential w] of them the whole queue. *)
Lemma resumes_spec (rs : list load_outcome) (w : world) :
  Inv w ->
  Inv (run (Resume <$> rs) w)
  /\ (parked (run (Resume <$> rs) w) = None
      \/ potential (run (Resume <$> rs) w) + List.length rs <= potential w)
  /\ exists k,
       executions (trace (run (Resume <$> rs) w))
         = executions (trace w) ++ take k (navigationQueue w)
       /\ navigationQueue (run (Resume <$> rs) w) = drop k (navigationQueue w).
Proof.
  revert w. induction rs as [|o rs IH]; intros w HInv.
  - simpl. split; [assumption|]. split; [right; lia|].
    exists 0. rewrite take_0, drop_0, app_nil_r. split; reflexivity.
  - change (run (Resume <$> o :: rs) w)
      with (run (Resume <$> rs) (resume o w)).
    change (List.length (o :: rs)) with (S (List.length rs)).
    destruct (parked w) eqn:Hp.
    + destruct (resume_spec o w HInv) as (HInv' & Hpot & k1 & Hk1 & Hk2);
        [congruence|].
      destruct (IH _ HInv') as (HInv'' & Hdone & k2 & Hk3 & Hk4).
      split; [assumption|]. split; [destruct Hdone; [left; assumption | right; lia]|].
      exists (k1 + k2). rewrite Hk3, Hk4, Hk1, Hk2, <- app_assoc.
      rewrite take_take_drop, drop_drop. split; reflexivity.
    + rewrite (resume_idle _ _ Hp).
      destruct (IH _ HInv) as (HInv'' & Hdone & k2 & Hk3 & Hk4).
      split; [assumption|]. split; [|exists k2; split; assumption].
      left. clear -Hp HInv. revert w Hp HInv.
      induction rs as [|o' rs IH']; intros w Hp HInv; simpl; [assumption|].
      rewrite (resume_idle _ _ Hp). apply IH'; assumption.
Qed.

(** [navigate] while the loop is suspended: the request is dropped or
    queued, and nothing else changes. *)
Lemma navigate_busy (p : string) (w : world) :
  isNavigating w = true ->
  navigate p w =
    if bool_decide (currentPath w = Some p) then emit (EvDropped p) w
    else if bool_decide (navigationQueue w = [])
            || negb (bool_decide (last (navigationQueue w) = Some p))
         then set_navigationQueue (navigationQueue w ++ [p]) w
         else w.
Proof.
  intros Hnav. unfold navigate. rewrite Hnav. simpl.
  case_bool_decide; [reflexivity|].
  destruct (_ || _); simpl; rewrite Hnav; reflexivity.
Qed.

Lemma Inv_busy (w : world) : Inv w -> parked w <> None -> isNavigating w = true.
Proof.
  intros (_ & Hpk & _) Hp.
  destruct (parked w) as [[?|?]|]; [apply Hpk..|contradiction].
Qed.

Lemma navigate_Inv (p : string) (w : world) : Inv w -> Inv (navigate p w).
Proof.
  intros HInv. destruct (parked w) eqn:Hp.
  - rewrite navigate_busy by (apply Inv_busy; [assumption|congruence]).
    destruct HInv as (Hser & Hpk & Hcur). rewrite Hp in Hpk.
    repeat case_match; unfold Inv; simpl; rewrite ?serialFrom_app, ?Hp, ?Hser;
      simpl; try (destruct (isNavigating w); repeat split; tauto);
      repeat split; tauto.
  - destruct HInv as (Hser & Hpk & Hcur). rewrite Hp in Hpk.
    destruct Hpk as (Hnav & Hq).
    unfold navigate. rewrite Hnav, Hq. simpl. rewrite Hnav.
    apply (drain_spec _ _ eq_refl).
    repeat split; simpl; try assumption. congruence.
Qed.

Lemma step_Inv (i : input) (w : world) : Inv w -> Inv (step i w).
Proof.
  intros HInv. destruct i as [p|o|o|m]; simpl.
  - apply navigate_Inv, HInv.
  - destruct (parked w) eqn:Hp.
    + apply resume_spec; [assumption|congruence].
    + rewrite resume_idle; assumption.
  - unfold backgroundDone. destruct (background w); [assumption|].
    destruct HInv as (Hser & Hpk & Hcur).
    unfold loadPageEnd, Inv.
    destruct o; simpl; try destruct (String.eqb (hash w) _); simpl;
      rewrite ?serialFrom_app, Hser; simpl;
      (destruct (isNavigating w); repeat split; assumption).
  - exact HInv.
Qed.

Lemma run_Inv (inputs : list input) (w : world) : Inv w -> Inv (run inputs w).
Proof.
  revert w. induction inputs as [|i inputs IH]; intros w HInv; simpl;
    [assumption|].
  apply IH, step_Inv, HInv.
Qed.

Lemma reachable_Inv (w : world) : reachable w -> Inv w.
Proof.
  intros (m & h & inputs & ->). apply run_Inv.
  repeat split.
Qed.

Lemma navigate_busy_obs (p : string) (w : world) :
  isNavigating w = true ->
  navigationQueue (navigate p w) = navigationQueue w ++ queued p w
  /\ currentPath (navigate p w) = currentPath w
  /\ isNavigating (navigate p w) = true
  /\ parked (navigate p w) = parked w
  /\ executions (trace (navigate p w)) = executions (trace w).
Proof.
  intros Hnav. rewrite navigate_busy by assumption. unfold queued.
  case_bool_decide; simpl.
  - rewrite executions_app, !app_nil_r. repeat split; assumption.
  - destruct (_ || _); simpl; rewrite ?app_nil_r; repeat split; assumption.
Qed.


(** What the guard of [navigate] does drop: a request for the page that is
    current while the loop is busy with another path. *)
Lemma navigate_drops_current_page (p : string) (w : world) :
  isNavigating w = true -> currentPath w = Some p ->
  navigate p w = emit (EvDropped p) w.
Proof.
  intros Hnav Hcur. rewrite navigate_busy by assumption.
  rewrite bool_decide_eq_true_2 by assumption. reflexivity.
Qed.


(** C6 (as the code behaves). While a navigation for [p] is in flight, be
    it waiting for the session subsystem or for the page, [p] is never the
    current path, so the test [isNavigating && currentPath === path] does
    not hold for a repeated [navigate(p)]: the request is not dropped but
    ends up at the tail of the pending queue, and [_navigate(p)] runs a
    second time once the first has finished, as for [/signup] requested
    twice by a visitor. *)
Theorem request_for_path_in_flight_is_queued (p : string) (w : world) :
  reachable w ->
  parked w = Some (AwaitLoad p) \/ parked w = Some (AwaitAuth p) ->
  currentPath w <> Some p
  /\ trace (navigate p w) = trace w
  /\ navigationQueue (navigate p w)
       = navigationQueue w
         ++ (if bool_decide (last (navigationQueue w) = Some p) then [] else [p])
  /\ last (navigationQueue (navigate p w)) = Some p
  /\ trace (run [Navigate "/signup"; Navigate "/signup"; Resume Rendered]
              (initial (Ext.Manager None None true) ""))
     = [ EvNavigate "/signup"; EvLoadPage "/signup";
         EvFetch (Some (Js.Own "pages/signup.html"));
         EvLoaded "/signup" Rendered; EvHash "#/signup"; EvDone "/signup";
         EvNavigate "/signup"; EvDone "/signup" ].
Proof.
  intros Hreach Hpark.
  pose proof (reachable_Inv _ Hreach) as HInv.
  assert (isNavigating w = true) as Hnav
    by (apply Inv_busy; [assumption | destruct Hpark; congruence]).
  assert (currentPath w <> Some p) as Hcur.
  { destruct HInv as (_ & Hpk & Hnone).
    destruct Hpark as [Hp | Hp]; rewrite Hp in Hpk.
    - apply Hpk.
    - destruct Hpk as (_ & Har). rewrite (Hnone Har). discriminate. }
  split; [assumption|].
  rewrite navigate_busy by assumption.
  rewrite bool_decide_eq_false_2 by assumption.
  destruct (bool_decide (last (navigationQueue w) = Some p)) eqn:Hlast.
  - apply bool_decide_eq_true in Hlast.
    rewrite bool_decide_eq_false_2
      by (intros Hnil; rewrite Hnil in Hlast; discriminate).
    simpl. rewrite app_nil_r.
    repeat split; solve [assumption | reflexivity].
  - rewrite orb_true_r. simpl. rewrite last_snoc.
    repeat split; reflexivity.
Qed.

Lemma request_for_path_in_flight_is_queued_witness :
  navigationQueue
    (navigate "/signup"
       (run [Navigate "/signup"] (initial (Ext.Manager None None true) "")))
  = ["/signup"].
Proof.
  destruct (request_for_path_in_flight_is_queued "/signup"
              (run [Navigate "/signup"] (initial (Ext.Manager None None true) "")))
    as (_ & _ & Hq & _).
  - exists (Ext.Manager None None true), "", [Navigate "/signup"]. reflexivity.
  - left. reflexivity.
  - exact Hq.
Defined.

End Queue.

Section Session.
Import Ext AuthManager Listener.

Ltac unfold_m :=
  unfold login, checkPendingStudent, activateStudentAccount,
    createStudentAccount, try_catch, throwError, throw, setSession,
    createUserWithEmailAndPassword, signInWithEmailAndPassword, signOut,
    doc_get, doc_set, doc_update, doc_delete, doc_new, serverTimestamp,
    query_empty, modify, get_state, ret, mbind, M_bind, bind in *.




Section DisabledLogin.
Variables (email password id : string) (data : doc) (a0 : agent).
Hypothesis Hacc : accounts (auth (base a0)) !! email = Some (password, id).
Hypothesis Hdoc : users (db (base a0)) !! id = Some data.
Hypothesis Htype : data !! "userType" = Some (VStr "student").
Hypothesis Hstatus : data !! "status" = Some (VStr "inactive").






End DisabledLogin.

Lemma loginStep_Calling s ans email password ns su res pub :
  loginStep (Agent s ans (Calling email password) ns su res pub)
  = match signInWithEmailAndPassword email password s with
    | (Ok user, s') =>
        Agent s' ans (Fetching user) (ns ++ [Some user]) su res pub
    | (Throw e, s') =>
        Agent s' ans (Returned (Failure (_translateError e))) ns su res pub
    end.
Proof.
  unfold loginStep. cbn [pc base].
  destruct (signInWithEmailAndPassword email password s) as [[u|e] s'];
    reflexivity.
Qed.

Lemma loginStep_Returned s ans r ns su res pub :
  loginStep (Agent s ans (Returned r) ns su res pub)
  = Agent s ans (Returned r) ns su res pub.
Proof. reflexivity. Qed.

Lemma loginStep_SigningOut s ans u ns su res pub :
  loginStep (Agent s ans (SigningOut u) ns su res pub)
  = match signOut ans s with
    | (Ok _, s') =>
        Agent s' ans (Returned accountDisabled) (ns ++ [None]) su res pub
    | (Throw e, s') =>
        Agent s' ans (Returned (Failure (_translateError e))) ns su res pub
    end.
Proof.
  unfold loginStep. cbn [pc base signOutAnswer].
  destruct (signOut ans s) as [[[]|e] s']; reflexivity.
Qed.

Lemma loginStep_Fetching s ans u ns su res pub :
  loginStep (Agent s ans (Fetching u) ns su res pub)
  = match users (db s) !! uid u with
    | None =>
        Agent s ans
          (Returned (Failure (_translateError
                       (Error None "Dados do usuário não encontrados"))))
          ns su res pub
    | Some data =>
        if is_str (data !! "userType") "student"
           && is_str (data !! "status") "inactive"
        then Agent s ans (SigningOut u) ns su res pub
        else
          Agent (set_mgr (Manager (Some u) (as_str (data !! "userType"))
                                  (isInitialized (mgr s))) s)
                ans (Returned (Success u (as_str (data !! "userType"))))
                ns su res pub
    end.
Proof.
  unfold loginStep. cbn [pc base].
  destruct (users (db s) !! uid u) as [data|]; [|reflexivity].
  destruct (_ && _); reflexivity.
Qed.

(** [login], [await] by [await]. *)
Lemma login_unfold (ans : option error) (email password : string) (s : state) :
  login ans email password s
  = match signInWithEmailAndPassword email password s with
    | (Throw e, s1) => (Ok (Failure (_translateError e)), s1)
    | (Ok u, s1) =>
        match users (db s1) !! uid u with
        | None =>
            (Ok (Failure (_translateError
                   (Error None "Dados do usuário não encontrados"))), s1)
        | Some data =>
            if is_str (data !! "userType") "student"
               && is_str (data !! "status") "inactive"
            then
              match signOut ans s1 with
              | (Ok _, s2) => (Ok accountDisabled, s2)
              | (Throw e, s2) => (Ok (Failure (_translateError e)), s2)
              end
            else
              (Ok (Success u (as_str (data !! "userType"))),
               set_mgr (Manager (Some u) (as_str (data !! "userType"))
                                (isInitialized (mgr s1))) s1)
        end
    end.
Proof.
  unfold login, try_catch. unfold mbind at 1. unfold M_bind, bind.
  destruct (signInWithEmailAndPassword email password s) as [[u|e] s1];
    [|reflexivity].
  unfold doc_get, get_state, mbind, M_bind, bind, ret. simpl.
  destruct (users (db s1) !! uid u) as [data|]; [|reflexivity].
  destruct (_ && _); [|reflexivity].
  destruct (signOut ans s1) as [[[]|e] s2]; reflexivity.
Qed.

(** The turns of [login] in the machine, run one after the other with
    nothing in between, are the method: the same result, the same state. *)
Lemma loginSteps_login (a : agent) (email password : string) :
  pc a = Calling email password ->
  exists r,
    pc (run [LoginStep; LoginStep; LoginStep] a) = Returned r
    /\ login (signOutAnswer a) email password (base a)
       = (Ok r, base (run [LoginStep; LoginStep; LoginStep] a)).
Proof.
  intros Hpc. destruct a as [s ans l ns su res pub]. simpl in *. subst l.
  unfold run. cbn [foldl step].
  rewrite login_unfold, loginStep_Calling.
  destruct (signInWithEmailAndPassword email password s) as [[u|err] s1].
  2: { rewrite !loginStep_Returned. eexists; split; reflexivity. }
  rewrite loginStep_Fetching.
  destruct (users (db s1) !! uid u) as [data|].
  2: { rewrite loginStep_Returned. eexists; split; reflexivity. }
  destruct (is_str (data !! "userType") "student"
            && is_str (data !! "status") "inactive").
  - rewrite loginStep_SigningOut.
    destruct (signOut ans s1) as [[[]|err] s2]; eexists; split; reflexivity.
  - rewrite loginStep_Returned. eexists; split; reflexivity.
Qed.




Lemma indexEntry_fields (ref : string) (t : value) :
  indexEntry ref t !! "status" = Some (VStr "pending")
  /\ indexEntry ref t !! "studentDocId" = Some (VStr ref).
Proof. repeat split. Qed.

Lemma checkPendingStudent_after_create (name email id : string) (s s' : state) :
  createStudentAccount name email s = (Ok (Created id), s') ->
  exists trainer,
    currentUser (mgr s) = Some trainer
    /\ checkPendingStudent email s'
       = (Ok (Exists id (Some (VStr (Js.trim name)))
                        (Some (VStr (uid trainer)))), s').
Proof.
  intros H. unfold_m. simpl in H.
  destruct (currentUser (mgr s)) as [trainer|] eqn:Hcur; [|discriminate].
  exists trainer. split; [reflexivity|].
  destruct (negb (bool_decide (currentUserType (mgr s) = Some "personal")));
    [discriminate|].
  destruct (negb (Js.truthy_str name) || negb (Js.truthy_str email));
    [discriminate|].
  simpl in H.
  destruct (negb (bool_decide _)); [discriminate|].
  simpl in H.
  destruct (_ !! uid trainer) as [d|] eqn:Hd in H; [|discriminate].
  simpl in H. injection H as <- <-. simpl.
  rewrite lookup_insert_eq.
  destruct (indexEntry_fields (idGen (db s) (idCount (db s)))
              (VTime (S (clock (db s))))) as (-> & ->).
  simpl.
  destruct (decide (uid trainer = idGen (db s) (idCount (db s)))) as [Heq|Hne].
  - rewrite Heq, lookup_insert_eq. rewrite Heq, lookup_insert_eq in Hd.
    injection Hd as <-. simpl. reflexivity.
  - rewrite lookup_insert_ne, lookup_insert_eq by assumption.
    simpl. reflexivity.
Qed.
Lemma updatePersonalList_spec (sd : doc) (id uid0 : string) (s : state) :
  exists us',
    updatePersonalList sd id uid0 s
      = (Ok tt, set_db (Firestore us' (pendingActivations (db s)) (idGen (db s))
                                  (idCount (db s)) (clock (db s))) s)
    /\ forall k,
         (users (db s) !! k = None -> us' !! k = None)
         /\ (forall d, users (db s) !! k = Some d ->
               exists d', us' !! k = Some d' /\ d' !! "status" = d !! "status").
Proof.
  assert (Hid : exists us',
            (Ok tt, s) = (Ok tt, set_db (Firestore us' (pendingActivations (db s))
                             (idGen (db s)) (idCount (db s)) (clock (db s))) s)
            /\ forall k,
                 (users (db s) !! k = None -> us' !! k = None)
                 /\ (forall d, users (db s) !! k = Some d ->
                       exists d', us' !! k = Some d'
                                  /\ d' !! "status" = d !! "status")).
  { exists (users (db s)). split; [destruct s as [a [us pa ig ic cl] m]; reflexivity|].
    intros k. split; [auto|]. intros d Hd. exists d. auto. }
  unfold updatePersonalList.
  destruct (sd !! "personalId") as [[|pid| |]|]; try exact Hid.
  destruct (Js.truthy_str pid); [|exact Hid].
  unfold_m. simpl.
  destruct (users (db s) !! pid) as [d|] eqn:Hd; simpl; [|exact Hid].
  rewrite lookup_insert_eq. simpl.
  eexists. split; [reflexivity|].
  intros k. destruct (decide (pid = k)) as [<-|Hne].
  - split; [congruence|]. intros d0 Hd0. rewrite lookup_insert_eq.
    eexists. split; [reflexivity|]. simplify_eq.
    rewrite !lookup_insert_ne by discriminate. reflexivity.
  - rewrite !lookup_insert_ne by assumption. split; [auto|].
    intros d0 Hd0. exists d0. auto.
Qed.
Lemma finalDoc_status (sd : doc) (id : string) (t : value) :
  finalDoc sd id t !! "status" = Some (VStr "active").
Proof.
  unfold finalDoc. rewrite lookup_insert_ne by discriminate.
  apply lookup_insert_eq.
Qed.

Ltac tail H Hna Htail u s sd :=
  let us' := fresh "us'" in
  let Hupd := fresh "Hupd" in
  let Hk := fresh "Hk" in
  let d' := fresh "d'" in
  let Hd' := fresh "Hd'" in
  let Hst := fresh "Hst" in
  let Hne := fresh "Hne" in
  match type of H with
  | context [User ?i ?e] =>
      assert (u = User i e) as ->
        by (repeat case_match; simplify_eq; reflexivity)
  end;
  simpl in Hna; rewrite (Htail _ Hna) in H; simpl in H;
  match type of H with
  | context [updatePersonalList ?a ?b ?c ?S] =>
      destruct (updatePersonalList_spec a b c S) as (us' & Hupd & Hk);
      rewrite Hupd in H
  end;
  simpl in H; injection H as <- <-; simpl;
  (split; [apply Hk; simpl; apply lookup_delete_eq|]);
  (split; [apply lookup_delete_eq|]);
  (split; [reflexivity|]); (split; [reflexivity|]);
  intros Hne;
  match goal with
  | |- context [us' !! ?k] =>
      destruct (proj2 (Hk k) (finalDoc sd k (VTime (clock (db s)))))
        as (d' & Hd' & Hst);
      [ simpl; rewrite lookup_delete_ne, lookup_insert_eq by congruence;
        reflexivity
      | exists d'; split; [exact Hd' | rewrite Hst; apply finalDoc_status] ]
  end.

Lemma activate_completed (email pw id : string) (s s' : state) (u : user)
    (t : option string) :
  activateStudentAccount email pw id s = (Ok (Success u t), s') ->
  (forall d, users (db s) !! uid u = Some d ->
     is_str (d !! "status") "active" = false) ->
  (String.length pw <? 6)%nat = false
  /\ users (db s') !! id = None
  /\ pendingActivations (db s') !! emailKey (normalizeEmail email) = None
  /\ currentUser (mgr s') = Some u
  /\ currentUserType (mgr s') = Some "student"
  /\ (uid u <> id ->
      exists d, users (db s') !! uid u = Some d
                /\ d !! "status" = Some (VStr "active")).
Proof.
  intros H Hna.
  unfold activateStudentAccount in H. unfold_m. simpl in H.
  destruct (String.length pw <? 6)%nat eqn:Hlen; [discriminate|].
  split; [reflexivity|]. simpl in H.
  destruct (users (db s) !! id) as [sd|] eqn:Hsd; [|discriminate].
  simpl in H.
  assert (Htail : forall uid',
    (forall d, users (db s) !! uid' = Some d ->
       is_str (d !! "status") "active" = false) ->
    match users (db s) !! uid' with
    | Some d => is_str (d !! "status") "active"
    | None => false
    end = false).
  { intros uid' Hn. destruct (users (db s) !! uid') as [d|]; [|reflexivity].
    apply Hn. reflexivity. }
  destruct (accounts (auth s) !! normalizeEmail email) as [[pw' uid']|] eqn:Hacc;
    simpl in H.
  - rewrite Hacc in H. simpl in H.
    destruct (negb (String.eqb pw pw')); [discriminate|]. simpl in H.
    tail H Hna Htail u s sd.
  - simpl in H.
    tail H Hna Htail u s sd.
Qed.

(** C8 (amended). [checkPendingStudent(email)] on the sanitized key of the
    e-mail: without an index entry it returns [{ noIndex: true }]; with an
    entry whose status is not [pending], or whose provisional record is
    missing or not [pending], it returns [{ alreadyActive: true }];
    otherwise it returns the provisional record id, the name and the owning
    trainer id.  So after a successful [createStudentAccount] for the
    e-mail it returns [{ exists: true, studentDocId, name, personalId }];
    and after an activation that ran to its end the index entry is deleted,
    so it returns [{ noIndex: true }]. *)
Theorem checkPendingStudent_cases (email : string) (s : state) :
  (pendingActivations (db s) !! emailKey (normalizeEmail email) = None ->
   checkPendingStudent email s = (Ok NoIndex, s))
  /\ (forall idx,
        pendingActivations (db s) !! emailKey (normalizeEmail email) = Some idx ->
        is_str (idx !! "status") "pending" = false ->
        checkPendingStudent email s = (Ok AlreadyActive, s))
  /\ (forall idx id,
        pendingActivations (db s) !! emailKey (normalizeEmail email) = Some idx ->
        is_str (idx !! "status") "pending" = true ->
        idx !! "studentDocId" = Some (VStr id) ->
        (users (db s) !! id = None ->
         checkPendingStudent email s = (Ok AlreadyActive, s))
        /\ (forall d, users (db s) !! id = Some d ->
              is_str (d !! "status") "pending" = false ->
              checkPendingStudent email s = (Ok AlreadyActive, s))
        /\ (forall d, users (db s) !! id = Some d ->
              is_str (d !! "status") "pending" = true ->
              checkPendingStudent email s
                = (Ok (Exists id (d !! "name") (d !! "personalId")), s)))
  /\ (forall name id s',
        createStudentAccount name email s = (Ok (Created id), s') ->
        exists trainer,
          currentUser (mgr s) = Some trainer
          /\ checkPendingStudent email s'
               = (Ok (Exists id (Some (VStr (Js.trim name)))
                                (Some (VStr (uid trainer)))), s'))
  /\ (forall pw id u t s',
        activateStudentAccount email pw id s = (Ok (Success u t), s') ->
        (forall d, users (db s) !! uid u = Some d ->
           is_str (d !! "status") "active" = false) ->
        checkPendingStudent email s' = (Ok NoIndex, s')).
Proof.
  split; [|split; [|split; [|split]]].
  - intros Hidx. unfold_m. simpl. rewrite Hidx. reflexivity.
  - intros idx Hidx Hst. unfold_m. simpl. rewrite Hidx, Hst. reflexivity.
  - intros idx id Hidx Hst Hid. split; [|split].
    + intros Hd. unfold_m. simpl. rewrite Hidx, Hst, Hid. simpl.
      rewrite Hd. reflexivity.
    + intros d Hd Hds. unfold_m. simpl. rewrite Hidx, Hst, Hid. simpl.
      rewrite Hd, Hds. reflexivity.
    + intros d Hd Hds. unfold_m. simpl. rewrite Hidx, Hst, Hid. simpl.
      rewrite Hd, Hds. reflexivity.
  - intros name id s'. apply checkPendingStudent_after_create.
  - intros pw id u t s' Hact Hna.
    destruct (activate_completed _ _ _ _ _ _ _ Hact Hna) as (_ & _ & Hidx & _).
    unfold_m. simpl. rewrite Hidx. reflexivity.
Qed.

(** The trainer of the scenario registers Ana; her e-mail is then looked
    up as she types it. *)
Lemma checkPendingStudent_cases_witness :
  exists trainer,
    currentUser (mgr Scenario.start) = Some trainer
    /\ checkPendingStudent " Ana@X.com " Scenario.afterCreate
         = (Ok (Exists "D" (Some (VStr (Js.trim "Ana")))
                          (Some (VStr (uid trainer)))), Scenario.afterCreate).
Proof.
  apply (checkPendingStudent_cases " Ana@X.com " Scenario.start).
  reflexivity.
Defined.

(** C8 as stated fails after an activation: in the scenario, Ana's
    activation succeeds and the lookup of her e-mail then answers
    [{ noIndex: true }], not [{ alreadyActive: true }]. *)
Lemma checkPendingStudent_after_activation :
  (createStudentAccount "Ana" " Ana@X.com " Scenario.start).1 = Ok (Created "D")
  /\ (activateStudentAccount "ana@x.com" "secret1" "D" Scenario.afterCreate).1
     = Ok (Success (User "U" "ana@x.com") (Some "student"))
  /\ (checkPendingStudent "ana@x.com" Scenario.afterActivation).1 = Ok NoIndex
  /\ (checkPendingStudent "ana@x.com" Scenario.afterActivation).1
     <> Ok AlreadyActive.
Proof.
  split; [vm_compute; reflexivity|].
  split; [vm_compute; reflexivity|].
  split; [vm_compute; reflexivity|].
  vm_compute. discriminate.
Qed.

(** Step 3 does short-circuit a retry as long as the provisional record is
    still there: the identity exists, its profile record is active, and the
    call succeeds without writing to the store. *)
Lemma activation_short_circuit
    (email pw id uid' : string) (sd d : doc) (s : state) :
  (String.length pw <? 6)%nat = false ->
  users (db s) !! id = Some sd ->
  accounts (auth s) !! normalizeEmail email = Some (pw, uid') ->
  users (db s) !! uid' = Some d ->
  is_str (d !! "status") "active" = true ->
  (activateStudentAccount email pw id s).1
    = Ok (Success (User uid' (normalizeEmail email)) (Some "student"))
  /\ db (activateStudentAccount email pw id s).2 = db s.
Proof.
  intros Hlen Hsd Hacc Hd Hact.
  unfold activateStudentAccount. unfold_m. simpl.
  rewrite Hlen. simpl. rewrite Hsd. simpl. rewrite Hacc. simpl.
  rewrite Hacc. simpl. rewrite String.eqb_refl. simpl.
  rewrite Hd, Hact. simpl. split; reflexivity.
Qed.

(** C4 (as the code behaves). When [activateStudentAccount] has run to its
    end (success, the identity's profile record not having been active
    before), the provisional record is gone, and a second call with the
    same arguments stops at step 1 with the record-not-found failure,
    before the check of step 3 for a migration already done; it changes
    nothing.  So it is in the scenario. *)
Theorem second_activation_reports_missing_record
    (email pw id : string) (u : user) (t : option string) (s s' : state) :
  activateStudentAccount email pw id s = (Ok (Success u t), s') ->
  (forall d, users (db s) !! uid u = Some d ->
     is_str (d !! "status") "active" = false) ->
  users (db s') !! id = None
  /\ activateStudentAccount email pw id s'
     = (Ok (Failure "Dados do aluno não encontrados. Entre em contato com seu personal trainer."),
        s')
  /\ (activateStudentAccount "ana@x.com" "secret1" "D" Scenario.afterCreate).1
     = Ok (Success (User "U" "ana@x.com") (Some "student"))
  /\ (activateStudentAccount "ana@x.com" "secret1" "D" Scenario.afterActivation).1
     = Ok (Failure "Dados do aluno não encontrados. Entre em contato com seu personal trainer.").
Proof.
  intros Hact Hna.
  destruct (activate_completed _ _ _ _ _ _ _ Hact Hna) as (Hlen & Hgone & _).
  split; [exact Hgone|].
  split; [|split; vm_compute; reflexivity].
  unfold activateStudentAccount. unfold_m. simpl.
  rewrite Hlen. simpl. rewrite Hgone. reflexivity.
Qed.

Lemma second_activation_reports_missing_record_witness :
  users (db Scenario.afterActivation) !! "D" = None.
Proof.
  apply (second_activation_reports_missing_record
           "ana@x.com" "secret1" "D" (User "U" "ana@x.com") (Some "student")
           Scenario.afterCreate Scenario.afterActivation).
  - vm_compute. reflexivity.
  - intros d Hd. vm_compute in Hd. discriminate.
Defined.

End Session.

Section Routes.
Import Router RouteSpec Browser.

Lemma matchTypeParts_forallb (rs ps : list string) :
  List.length rs = List.length ps ->
  matchTypeParts rs ps
    = forallb (fun rp => segmentMatches rp.1 rp.2) (zip rs ps).
Proof.
  revert ps. induction rs as [|r rs IH]; intros [|p ps] Hlen; simpl in *;
    try discriminate; try reflexivity.
  unfold segmentMatches at 1. simpl.
  destruct (Js.startsWith ":" r), (String.eqb r p); simpl;
    try reflexivity; apply IH; lia.
Qed.

Lemma typeOfPatterns_find (table : list (string * string)) (path : string) :
  typeOfPatterns table path
    = snd <$> List.find (fun e => patternMatches e.1 path) table.
Proof.
  induction table as [|[r t] table IH]; simpl; [reflexivity|].
  unfold patternMatches at 1. simpl.
  destruct (Js.includes ":" r); simpl; [|exact IH].
  destruct (Nat.eqb_spec (List.length (Js.split "/" r))
                         (List.length (Js.split "/" path))) as [Hlen|Hlen];
    simpl; [|exact IH].
  rewrite (matchTypeParts_forallb _ _ Hlen).
  destruct (forallb _ _); [reflexivity | exact IH].
Qed.

Lemma own_Some_In (table : list (string * string)) (k v : string) :
  Js.own table k = Some v -> In (k, v) table.
Proof.
  induction table as [|[k' v'] table IH]; simpl; [discriminate|].
  destruct (String.eqb_spec k' k) as [->|Hne].
  - intros [= ->]. left. reflexivity.
  - intros H. right. apply IH, H.
Qed.

Lemma In_own (table : list (string * string)) (k v : string) :
  In (k, v) table -> exists v', Js.own table k = Some v' /\ In (k, v') table.
Proof.
  induction table as [|[k' v'] table IH]; simpl; [contradiction|].
  intros [[= -> ->] | HIn].
  - rewrite String.eqb_refl. eauto.
  - destruct (String.eqb_spec k' k) as [->|Hne]; [eauto|].
    destruct (IH HIn) as (v'' & Hown & HIn'). eauto.
Qed.

(** The patterns with parameter segments of both tables. *)
Lemma routes_patterns (e : string * string) :
  In e routes -> Js.includes ":" e.1 = true ->
  e.1 = "/personal/student/:id" \/ e.1 = "/personal/volume/:id".
Proof.
  simpl. intros H Hinc.
  repeat (destruct H as [<- | H];
          [first [vm_compute in Hinc; discriminate Hinc | simpl; auto]|]).
  contradiction.
Qed.

Lemma protectedRoutes_patterns (e : string * string) :
  In e protectedRoutes -> Js.includes ":" e.1 = true ->
  (e.1 = "/personal/student/:id" \/ e.1 = "/personal/volume/:id")
  /\ e.2 = "personal".
Proof.
  simpl. intros H Hinc.
  repeat (destruct H as [<- | H];
          [first [vm_compute in Hinc; discriminate Hinc | simpl; auto]|]).
  contradiction.
Qed.

Lemma patternMatches_includes (r path : string) :
  patternMatches r path = true -> Js.includes ":" r = true.
Proof.
  unfold patternMatches. intros H.
  apply andb_true_iff in H as [H _]. apply andb_true_iff in H as [H _].
  exact H.
Qed.

Lemma prototype_key_cases (k : string) :
  existsb (String.eqb k) Js.object_prototype_keys = true ->
  In k Js.object_prototype_keys.
Proof.
  intros H. apply existsb_exists in H as (x & HIn & Heq).
  apply String.eqb_eq in Heq. subst. exact HIn.
Qed.

(** A path with a required role is routable. *)
Lemma getRequiredType_routable (path : string) :
  Js.truthy (getRequiredType path) = true ->
  exists m,
    matchRoute path = Some m
    /\ Js.truthy (Js.get routes (route m)) = true
    /\ getRequiredType path = Js.get protectedRoutes (route m).
Proof.
  unfold getRequiredType, getRequiredTypeIn.
  destruct (Js.truthy (Js.get protectedRoutes path)) eqn:Hex.
  - intros _. exists (MatchResult path ∅). simpl.
    unfold matchRoute, matchRouteIn.
    assert (Js.truthy (Js.get routes path) = true) as Hr.
    { unfold Js.get in Hex |- *.
      destruct (Js.own protectedRoutes path) as [v|] eqn:Hown.
      - apply own_Some_In in Hown. simpl in Hown.
        repeat (destruct Hown as [[= <- <-] | Hown]; [reflexivity|]).
        contradiction.
      - destruct (existsb _ _) eqn:Hproto; [|discriminate].
        apply prototype_key_cases in Hproto. simpl in Hproto.
        repeat (destruct Hproto as [<- | Hproto]; [reflexivity|]).
        contradiction. }
    rewrite Hr. auto.
  - rewrite typeOfPatterns_find.
    destruct (List.find _ protectedRoutes) as [[r t]|] eqn:Hfind;
      [|discriminate].
    intros _. simpl.
    apply find_some in Hfind as [HIn Hmatch]. simpl in Hmatch.
    destruct (protectedRoutes_patterns _ HIn (patternMatches_includes _ _ Hmatch))
      as (Hr & Ht). simpl in Hr, Ht. subst t.
    assert (exists e, In e routes /\ patternMatches e.1 path = true)
      as (e0 & He0 & Hm0).
    { destruct Hr as [-> | ->]; eexists (_, _); (split; [|exact Hmatch]);
        simpl; auto 15. }
    destruct (List.find (fun e => patternMatches e.1 path) routes)
      as [[r' f']|] eqn:Hfind';
      [|exfalso; eapply find_none in Hfind'; [|exact He0];
        simpl in Hfind'; congruence].
    apply find_some in Hfind' as Hsome. destruct Hsome as [HIn' Hmatch'].
    simpl in Hmatch'.
    pose proof (routes_patterns _ HIn' (patternMatches_includes _ _ Hmatch'))
      as Hr'. simpl in Hr'.
    unfold matchRoute, matchRouteIn.
    destruct (Js.truthy (Js.get routes path)) eqn:Hexact.
    + (* an exact entry of the route table never matches a pattern *)
      exfalso. unfold Js.get in Hexact, Hex.
      destruct (Js.own routes path) as [v|] eqn:Hown.
      * apply own_Some_In in Hown. simpl in Hown.
        repeat (destruct Hown as [[= <- <-] | Hown];
                [first [ discriminate Hex
                       | destruct Hr as [-> | ->]; discriminate Hmatch ]|]).
        contradiction.
      * destruct (existsb _ _) eqn:Hproto; [|discriminate Hexact].
        destruct (Js.own protectedRoutes path) as [v|] eqn:Hown2;
          [|discriminate Hex].
        apply own_Some_In in Hown2. simpl in Hown2.
        repeat (destruct Hown2 as [[= <- <-] | Hown2]; [discriminate Hex|]).
        contradiction.
    + rewrite matchPatterns_find, Hfind'. eexists. split; [reflexivity|].
      simpl. destruct Hr' as [-> | ->]; split; reflexivity.
Qed.

(** X1. Every path for which [getRequiredType] finds a required role is
    resolved by [matchRoute] to an entry of the route table that has a page
    resource, and the required role is the one the table of protected
    routes gives to the resolved entry; so a path that matches no route
    requires no role. *)
Theorem protected_path_is_routable (path : string) :
  (Js.truthy (getRequiredType path) = true ->
   exists m,
     matchRoute path = Some m
     /\ Js.truthy (Js.get routes (route m)) = true
     /\ getRequiredType path = Js.get protectedRoutes (route m))
  /\ (matchRoute path = None -> getRequiredType path = None).
Proof.
  split; [apply getRequiredType_routable|].
  intros Hnone.
  destruct (getRequiredType path) as [[R|k]|] eqn:Hreq; [| |reflexivity];
    exfalso.
  - destruct (getRequiredType_role _ _ Hreq) as [-> | ->];
      destruct (getRequiredType_routable path) as (m & Hm & _);
      rewrite ?Hreq; try reflexivity; congruence.
  - destruct (getRequiredType_routable path) as (m & Hm & _);
      rewrite ?Hreq; try reflexivity; congruence.
Qed.

Lemma protected_path_is_routable_witness :
  exists m,
    matchRoute "/personal/volume/7" = Some m
    /\ Js.truthy (Js.get routes (route m)) = true
    /\ getRequiredType "/personal/volume/7" = Js.get protectedRoutes (route m).
Proof.
  apply (protected_path_is_routable "/personal/volume/7"). reflexivity.
Defined.

Lemma split_no_sep (id : string) :
  Js.includes "/" id = false -> Js.split "/" id = [id].
Proof.
  induction id as [|c id IH]; simpl; [reflexivity|].
  rewrite (Ascii.eqb_sym c). destruct (Ascii.eqb "/" c); simpl; [discriminate|].
  intros H. rewrite (IH H). reflexivity.
Qed.

Lemma split_sep_length (id : string) :
  Js.includes "/" id = true -> 2 <= List.length (Js.split "/" id).
Proof.
  assert (Hne : forall s, 1 <= List.length (Js.split "/" s)).
  { induction s as [|c s IH]; simpl; [lia|].
    destruct (Ascii.eqb c "/"); simpl; [lia|].
    destruct (Js.split "/" s); simpl in *; lia. }
  induction id as [|c id IH]; simpl; [discriminate|].
  rewrite (Ascii.eqb_sym c). destruct (Ascii.eqb "/" c); simpl.
  - intros _. specialize (Hne id). lia.
  - intros H. specialize (IH H).
    destruct (Js.split "/" id); simpl in *; lia.
Qed.

(** A path that starts with [/] is an exact entry of a table only when the
    table has it as a key. *)
Lemma get_miss (table : list (string * string)) (path : string) :
  Js.startsWith "/" path = true ->
  (forall v, ~ In (path, v) table) ->
  Js.get table path = None.
Proof.
  intros Hslash Hkeys. unfold Js.get.
  destruct (Js.own table path) as [v|] eqn:Hown.
  - apply own_Some_In in Hown. destruct (Hkeys _ Hown).
  - destruct (existsb _ _) eqn:Hproto; [|reflexivity].
    apply prototype_key_cases in Hproto. simpl in Hproto.
    repeat (destruct Hproto as [<- | Hproto]; [discriminate Hslash|]).
    contradiction.
Qed.

Lemma details_exact_miss (id : string) :
  id <> ":id" ->
  Js.get routes (studentDetailsPath id) = None
  /\ Js.get protectedRoutes (studentDetailsPath id) = None
  /\ Js.get routes (volumeAnalysisPath id) = None
  /\ Js.get protectedRoutes (volumeAnalysisPath id) = None.
Proof.
  intros Hne.
  repeat split; (apply get_miss; [reflexivity|]); intros v HIn;
    unfold studentDetailsPath, volumeAnalysisPath in HIn;
    cbv [String.append In routes protectedRoutes] in HIn;
    repeat (destruct HIn as [Heq | HIn]; [congruence|]); contradiction.
Qed.

Lemma details_split (id : string) :
  Js.split "/" (studentDetailsPath id)
    = "" :: "personal" :: "student" :: Js.split "/" id
  /\ Js.split "/" (volumeAnalysisPath id)
    = "" :: "personal" :: "volume" :: Js.split "/" id.
Proof. split; reflexivity. Qed.

(** X3. The path built by [goToStudentDetails(id)], and likewise the one
    built by [goToVolumeAnalysis(id)], resolves to its pattern with the
    parameter [id] bound to the given id and requires role [personal],
    whenever the id has no [/] and is not the text [:id]; an id with a [/]
    gives a path that matches no route and requires no role; and the id
    [:id] hits the pattern as an exact entry, with no parameters. *)
Theorem student_details_path_resolves (id : string) :
  (Js.includes "/" id = false -> id <> ":id" ->
   matchRoute (studentDetailsPath id)
     = Some (MatchResult "/personal/student/:id" {["id" := id]})
   /\ getRequiredType (studentDetailsPath id) = Some (Js.Own "personal")
   /\ matchRoute (volumeAnalysisPath id)
       = Some (MatchResult "/personal/volume/:id" {["id" := id]})
   /\ getRequiredType (volumeAnalysisPath id) = Some (Js.Own "personal"))
  /\ (Js.includes "/" id = true ->
      matchRoute (studentDetailsPath id) = None
      /\ getRequiredType (studentDetailsPath id) = None
      /\ matchRoute (volumeAnalysisPath id) = None
      /\ getRequiredType (volumeAnalysisPath id) = None)
  /\ matchRoute (studentDetailsPath ":id")
     = Some (MatchResult "/personal/student/:id" ∅)
  /\ matchRoute (volumeAnalysisPath ":id")
     = Some (MatchResult "/personal/volume/:id" ∅).
Proof.
  split; [|split; [|split; vm_compute; reflexivity]].
  - intros Hslash Hne.
    destruct (details_exact_miss id Hne) as (H1 & H2 & H3 & H4).
    destruct (details_split id) as (S1 & S2).
    unfold matchRoute, matchRouteIn, getRequiredType, getRequiredTypeIn.
    rewrite H1, H2, H3, H4. cbn [Js.truthy].
    rewrite !matchPatterns_find, !typeOfPatterns_find.
    unfold List.find, routes, protectedRoutes, patternMatches, extractParams.
    cbn [fst snd]. rewrite !S1, !S2, !(split_no_sep id Hslash).
    repeat split; vm_compute; reflexivity.
  - intros Hslash.
    assert (id <> ":id") as Hne by (intros ->; discriminate Hslash).
    destruct (details_exact_miss id Hne) as (H1 & H2 & H3 & H4).
    destruct (details_split id) as (S1 & S2).
    pose proof (split_sep_length id Hslash) as Hlen.
    unfold matchRoute, matchRouteIn, getRequiredType, getRequiredTypeIn.
    rewrite H1, H2, H3, H4. cbn [Js.truthy].
    rewrite !matchPatterns_find, !typeOfPatterns_find.
    unfold List.find, routes, protectedRoutes, patternMatches.
    cbn [fst snd]. rewrite !S1, !S2.
    destruct (Js.split "/" id) as [|x [|y l]]; simpl in Hlen; try lia.
    repeat split; vm_compute; reflexivity.
Qed.

Lemma student_details_path_resolves_witness :
  matchRoute (studentDetailsPath "aB3xYz")
    = Some (MatchResult "/personal/student/:id" {["id" := "aB3xYz"]})
  /\ matchRoute (studentDetailsPath "a/b") = None.
Proof.
  destruct (student_details_path_resolves "aB3xYz") as (Hok & _).
  destruct (student_details_path_resolves "a/b") as (_ & Hbad & _).
  split.
  - apply Hok; [reflexivity | discriminate].
  - apply Hbad. reflexivity.
Defined.
End Routes.

Section Navigation.
Import Router Observe Browser.

Lemma loadStep_hashWrites (path : string) (w : world) :
  hashWrites (trace (loadStep path w).2) = hashWrites (trace w).
Proof.
  unfold loadStep, loadPageBegin, hashWrites.
  case_bool_decide; simpl.
  - rewrite omap_app. simpl. apply app_nil_r.
  - destruct (matchRoute path); simpl.
    + rewrite !omap_app. simpl. rewrite !app_nil_r. reflexivity.
    + destruct (matchRoute "/login"); simpl;
        rewrite !omap_app; simpl; rewrite !app_nil_r; reflexivity.
Qed.

Lemma redirect_hashWrites (t path : string) (w : world) :
  hashWrites (trace (redirect t path w).2)
    = hashWrites (trace w) ++ ["#" +:+ t].
Proof.
  unfold redirect, hashWrites. simpl. rewrite !omap_app. simpl.
  rewrite app_nil_r. reflexivity.
Qed.

Lemma loadStep_is_no_redirect (t path : string) (w : world) :
  loadStep path w <> redirect t path w.
Proof.
  intros H. apply (f_equal (fun r => List.length (hashWrites (trace r.2)))) in H.
  rewrite loadStep_hashWrites, redirect_hashWrites, length_app in H.
  simpl in H. lia.
Qed.

Lemma redirect_target (t t' path : string) (w : world) :
  redirect t' path w = redirect t path w -> t' = t.
Proof.
  intros H. apply (f_equal (fun r => hash r.2)) in H. simpl in H.
  cbv [String.append] in H. congruence.
Qed.

(** The login page is loaded for a visitor, and each dashboard for the
    session the code sends there. *)
Lemma guards_login_loads (w : world) :
  AuthManager.isAuthenticated (session w) = false ->
  guards "/login" w = loadStep "/login" w.
Proof.
  intros Hauth. unfold guards, publicGuard.
  change (getRequiredType "/login") with (@None Js.prop).
  rewrite Hauth. cbn [Js.truthy]. rewrite andb_false_r. reflexivity.
Qed.

Lemma guards_dashboard_loads (w : world) :
  AuthManager.isAuthenticated (session w) = true ->
  guards (dashboardOf (AuthManager.getCurrentUserType (session w))) w
  = loadStep (dashboardOf (AuthManager.getCurrentUserType (session w))) w.
Proof.
  intros Hauth. unfold guards, publicGuard. rewrite Hauth.
  unfold dashboardOf at 1 2 3 4 5.
  case_bool_decide as Hcut.
  - rewrite Hcut. reflexivity.
  - change (getRequiredType "/student/dashboard")
      with (Some (Js.Own "student")).
    cbn [Js.truthy Js.truthy_str negb].
    assert (dashboardOf (AuthManager.getCurrentUserType (session w))
            = "/student/dashboard") as ->
      by (unfold dashboardOf; rewrite bool_decide_eq_false_2; done).
    destruct (strictNeq _ _); reflexivity.
Qed.

(** X2. A redirect never leads to another redirect: when the guards answer
    a path by a redirect to a target, then for the same session the guards
    let the target through to the page load. *)
Theorem redirect_target_is_not_redirected (path t : string) (w : world) :
  guards path w = redirect t path w ->
  forall w0, session w0 = session w -> guards t w0 = loadStep t w0.
Proof.
  intros H w0 Hs.
  assert (Hpub : publicGuard path w = redirect t path w ->
                 guards t w0 = loadStep t w0).
  { unfold publicGuard. intros Hp.
    destruct (bool_decide (path ∈ publicRoutes)
              && AuthManager.isAuthenticated (session w)
              && truthyType (AuthManager.getCurrentUserType (session w)))
      eqn:Hc; [|destruct (loadStep_is_no_redirect _ _ _ Hp)].
    destruct (negb _); [|destruct (loadStep_is_no_redirect _ _ _ Hp)].
    apply redirect_target in Hp. subst t.
    apply andb_true_iff in Hc as [Hc _]. apply andb_true_iff in Hc as [_ Hc].
    rewrite <- Hs. apply guards_dashboard_loads. rewrite Hs. exact Hc. }
  unfold guards in H.
  destruct (Js.truthy (getRequiredType path)); [|auto].
  destruct (AuthManager.isAuthenticated (session w)) eqn:Hauth; simpl in H.
  - destruct (strictNeq _ _); [|auto].
    destruct (negb _); [|auto].
    apply redirect_target in H. subst t.
    rewrite <- Hs. apply guards_dashboard_loads. rewrite Hs. exact Hauth.
  - apply redirect_target in H. subst t.
    apply guards_login_loads. rewrite Hs. exact Hauth.
Qed.

(** A trainer on a student's page. *)
Lemma redirect_target_is_not_redirected_witness :
  guards "/personal/dashboard"
    (initial (Ext.Manager (Some (Ext.User "t1" "t@x.com"))
                          (Some "personal") true) "")
  = loadStep "/personal/dashboard"
      (initial (Ext.Manager (Some (Ext.User "t1" "t@x.com"))
                            (Some "personal") true) "").
Proof.
  apply (redirect_target_is_not_redirected "/student/view-workout"
           "/personal/dashboard"
           (initial (Ext.Manager (Some (Ext.User "t1" "t@x.com"))
                                 (Some "personal") true) ""));
    reflexivity.
Defined.



Lemma noRepeat_drop (k : nat) (q : list string) :
  noRepeat q -> noRepeat (drop k q).
Proof.
  revert q. induction k as [|k IH]; intros q Hq; [rewrite drop_0; exact Hq|].
  destruct q as [|p q]; [exact I|]. simpl. apply IH.
  destruct q; [exact I | apply Hq].
Qed.

Lemma noRepeat_snoc (q : list string) (p : string) :
  noRepeat q -> last q <> Some p -> noRepeat (q ++ [p]).
Proof.
  induction q as [|a q IH]; intros Hq Hlast; [exact I|].
  destruct q as [|b q]; simpl in *.
  - split; [congruence | exact I].
  - destruct Hq as (Hab & Hq). split; [exact Hab|]. apply IH; assumption.
Qed.

Lemma backgroundDone_queue (o : load_outcome) (w : world) :
  navigationQueue (backgroundDone o w) = navigationQueue w.
Proof.
  unfold backgroundDone, loadPageEnd.
  destruct (background w); [reflexivity|].
  destruct o; simpl; try destruct (negb _); reflexivity.
Qed.

Lemma step_noRepeat (i : input) (w : world) :
  Inv w -> noRepeat (navigationQueue w) ->
  noRepeat (navigationQueue (step i w)).
Proof.
  intros HInv Hq. destruct i as [p|o|o|m]; simpl.
  - destruct (parked w) eqn:Hp.
    + assert (isNavigating w = true) as Hnav
        by (apply Inv_busy; [assumption | congruence]).
      destruct (navigate_busy_obs p w Hnav) as (-> & _).
      unfold queued.
      destruct (bool_decide (currentPath w = Some p)); simpl;
        [rewrite app_nil_r; exact Hq|].
      destruct (bool_decide (navigationQueue w = [])) eqn:He; simpl.
      * apply bool_decide_eq_true in He. rewrite He. exact I.
      * destruct (bool_decide (last (navigationQueue w) = Some p)) eqn:Hl;
          simpl; [rewrite app_nil_r; exact Hq|].
        apply bool_decide_eq_false in Hl.
        apply noRepeat_snoc; assumption.
    + destruct HInv as (Hser & Hpk & Hcur). rewrite Hp in Hpk.
      destruct Hpk as (Hnav & He).
      unfold navigate. rewrite Hnav, He. simpl. rewrite Hnav.
      assert (Mid (set_navigationQueue [p] w)) as HMid
        by (repeat split; simpl; try assumption; congruence).
      destruct (drain_spec _ _ eq_refl HMid) as (_ & _ & k & _ & Hk).
      simpl in Hk. rewrite Hk.
      apply (noRepeat_drop k [p]). exact I.
  - destruct (parked w) eqn:Hp.
    + destruct (resume_spec o w HInv) as (_ & _ & k & _ & ->); [congruence|].
      apply noRepeat_drop, Hq.
    + rewrite resume_idle; assumption.
  - rewrite backgroundDone_queue. exact Hq.
  - exact Hq.
Qed.

(** X5. The pending queue of a reachable router never holds the same path
    twice in a row. *)
Theorem queue_has_no_repeated_neighbours (w : world) :
  reachable w -> noRepeat (navigationQueue w).
Proof.
  intros (m & h & inputs & ->).
  assert (H : forall w0, Inv w0 -> noRepeat (navigationQueue w0) ->
                noRepeat (navigationQueue (run inputs w0))).
  { induction inputs as [|i inputs IH]; intros w0 HInv Hq; simpl;
      [exact Hq|].
    apply IH; [apply step_Inv, HInv | apply step_noRepeat; assumption]. }
  apply H; [repeat split | exact I].
Qed.

Lemma queue_has_no_repeated_neighbours_witness :
  noRepeat
    (navigationQueue
       (run [Navigate "/login"; Navigate "/a"; Navigate "/a"; Navigate "/b";
             Navigate "/a"]
          (initial (Ext.Manager None None true) ""))).
Proof.
  apply (queue_has_no_repeated_neighbours
           (run [Navigate "/login"; Navigate "/a"; Navigate "/a";
                 Navigate "/b"; Navigate "/a"]
              (initial (Ext.Manager None None true) ""))).
  exists (Ext.Manager None None true), "",
    [Navigate "/login"; Navigate "/a"; Navigate "/a"; Navigate "/b";
     Navigate "/a"].
  reflexivity.
Defined.

(** X6. From any reachable state, once as many pending waits are over as
    the queue and the suspended navigation can need, the router is idle,
    the queue is empty, and every request that was pending has been run by
    [_navigate] exactly once, in the order of the queue. *)
Theorem queue_is_drained_in_order (w : world) (rs : list load_outcome) :
  reachable w ->
  potential w <= List.length rs ->
  parked (run (Resume <$> rs) w) = None
  /\ isNavigating (run (Resume <$> rs) w) = false
  /\ navigationQueue (run (Resume <$> rs) w) = []
  /\ executions (trace (run (Resume <$> rs) w))
     = executions (trace w) ++ navigationQueue w.
Proof.
  intros Hreach Hrs.
  pose proof (reachable_Inv _ Hreach) as HInv.
  destruct (resumes_spec rs w HInv) as (HInvf & Hdone & k & Hk1 & Hk2).
  assert (parked (run (Resume <$> rs) w) = None) as Hnone.
  { destruct Hdone as [|Hpot]; [assumption|].
    unfold potential in Hpot at 1.
    destruct (parked (run (Resume <$> rs) w)) as [[?|?]|];
      [lia..|reflexivity]. }
  destruct HInvf as (_ & Hpk & _). rewrite Hnone in Hpk.
  destruct Hpk as (Hnav & Hqf).
  repeat split; try assumption.
  rewrite Hk1. f_equal.
  rewrite <- (take_drop k (navigationQueue w)) at 2.
  rewrite <- Hk2, Hqf, app_nil_r. reflexivity.
Qed.

Lemma queue_is_drained_in_order_witness :
  executions
    (trace (run (Resume <$> [Rendered; Rendered; Rendered; Rendered; Rendered])
              (run [Navigate "/login"; Navigate "/signup"; Navigate "/"]
                 (initial (Ext.Manager None None true) ""))))
  = executions
      (trace (run [Navigate "/login"; Navigate "/signup"; Navigate "/"]
                (initial (Ext.Manager None None true) "")))
    ++ navigationQueue
         (run [Navigate "/login"; Navigate "/signup"; Navigate "/"]
            (initial (Ext.Manager None None true) "")).
Proof.
  apply (queue_is_drained_in_order
           (run [Navigate "/login"; Navigate "/signup"; Navigate "/"]
              (initial (Ext.Manager None None true) ""))
           [Rendered; Rendered; Rendered; Rendered; Rendered]).
  - exists (Ext.Manager None None true), "",
      [Navigate "/login"; Navigate "/signup"; Navigate "/"].
    reflexivity.
  - vm_compute. lia.
Defined.

End Navigation.
